(** * desktop-widgets: the process supervisor and the event monitors

    A shallow embedding of
    - [src/lib/daemon-manager.ts]: the [DaemonManager] service with [set],
      [start], [stop] and the supervising task [spawnDaemon];
    - [src/lib/network.ts]: [parseMonitorLine], [readWifiSignal] and
      [createNetworkMonitor];
    - [src/lib/audio.ts]: [parseSubscribeLine] and [createAudioMonitor];
    followed by the properties of these that the specification states, and of
    - the one-shot queries of [src/lib/network.ts] ([listWifiNetworks],
      [listEthernetDevices], [getActiveConnection]) and [list] of the
      [DaemonManager];
    - [src/lib/truncate.ts], [src/lib/debounce.ts] and [launchApp] of
      [src/lib/apps.ts];
    with further properties of all of these that the code shows.

    The first part holds the definitions: JavaScript strings, the regular
    expressions of the parsers with their backtracking matcher, numbers as
    binary64 floats, the parsers, the supervisor as state-passing effects
    over a registry, and each monitor as a machine driven by the event loop.
    The second part holds the theorems. *)

From Stdlib Require Import ZArith NArith Lia.
From Stdlib Require Import Floats.PrimFloat Floats.FloatOps Floats.SpecFloat.
From Stdlib Require DecimalString.
From stdpp Require Import gmap strings list.

Local Open Scope N_scope.

(* ===================================================================== *)
(** * JavaScript strings *)
(* ===================================================================== *)

(** A JavaScript string is a sequence of UTF-16 code units.  A code unit is
    kept as an [N]; literals of the source are written with [js]. *)
Definition jsstring : Type := list N.

Definition js (s : string) : jsstring :=
  map Ascii.N_of_ascii (String.list_ascii_of_string s).

(* ===================================================================== *)
(** * Regular expressions *)
(* ===================================================================== *)

(** The fragment of ECMAScript regular expressions the two parsers and the
    signal reader are written in: literal characters, a character class under
    a greedy [*] or [+], capture parentheses around a part of the pattern,
    and the assertions [^] and [$].  A pattern is the list of its tokens in
    source order.  Matching is the backtracking procedure of the language:
    a greedy quantifier first takes as many characters as it can and gives
    them back one at a time while the rest of the pattern fails. *)
Module RegExp.

Inductive Node : Type :=
| Lit (c : N)              (* one literal character *)
| Star (p : N → bool)      (* class*  *)
| Plus (p : N → bool)      (* class+  *)
| Open                     (* (  *)
| Close                    (* )  *)
| Bol                      (* ^  *)
| Eol.                     (* $  *)

(** ** Character classes *)

Definition between (lo hi c : N) : bool := (lo <=? c) && (c <=? hi).

(** [\d] *)
Definition digit (c : N) : bool := between 48 57 c.

(** [\w], without the [i] and [u] flags: [[A-Za-z0-9_]] *)
Definition word (c : N) : bool :=
between 97 122 c || between 65 90 c || digit c || (c =? 95).

(** [[\w-]] *)
Definition word_or_hyphen (c : N) : bool := word c || (c =? 45).

(** LineTerminator: LF, CR, LS, PS *)
Definition line_terminator (c : N) : bool :=
(c =? 10) || (c =? 13) || (c =? 8232) || (c =? 8233).

(** [.] without the [s] flag *)
Definition dot (c : N) : bool := negb (line_terminator c).

(** [\s]: WhiteSpace and LineTerminator *)
Definition space (c : N) : bool :=
between 9 13 c || (c =? 32) || (c =? 160) || (c =? 5760)
|| between 8192 8202 c || (c =? 8232) || (c =? 8233) || (c =? 8239)
|| (c =? 8287) || (c =? 12288) || (c =? 65279).

(** ** Assertions *)

(** [^]: at the start of the input, or, under the [m] flag, after a line
  terminator.  [prev] is the character before the current position. *)
Definition at_bol (multiline : bool) (prev : option N) : bool :=
match prev with
| None => true
| Some c => multiline && line_terminator c
end.

(** [$]: at the end of the input, or, under the [m] flag, before a line
  terminator. *)
Definition at_eol (multiline : bool) (s : jsstring) : bool :=
match s with
| [] => true
| c :: _ => multiline && line_terminator c
end.

(** ** The matcher *)

Section Quantifier.
Context {R : Type}.
Variable p : N → bool.
(** the rest of the pattern, as a continuation *)
Variable k : option N → jsstring → option R.

(** Greedy [class*]: take a character of the class when there is one and
    go on; when the rest fails after that, give the character back. *)
Fixpoint star_loop (prev : option N) (s : jsstring) : option R :=
  match s with
  | c :: s' =>
      if p c then
        match star_loop (Some c) s' with
        | Some r => Some r
        | None => k prev s
        end
      else k prev s
  | [] => k prev s
  end.

(** Greedy [class+]: one character of the class, then [class*]. *)
Definition plus_loop (prev : option N) (s : jsstring) : option R :=
  match s with
  | c :: s' => if p c then star_loop (Some c) s' else None
  | [] => None
  end.
End Quantifier.

(** [run ml pat opens caps prev s] matches [pat] at the front of [s].
  [opens] holds, for each parenthesis that is open, the input at the
  point where it opened; [caps] the captures closed so far, the last one
  first.  The result is the captures in the order their groups closed
  (which is the order of the groups' numbers, the parsers' groups not
  being nested) and the input left after the match. *)
Fixpoint run (ml : bool) (pat : list Node) (opens caps : list jsstring)
  (prev : option N) (s : jsstring) : option (list jsstring * jsstring) :=
match pat with
| [] => Some (rev caps, s)
| Lit c :: pat' =>
    match s with
    | x :: s' => if x =? c then run ml pat' opens caps (Some x) s' else None
    | [] => None
    end
| Star p :: pat' => star_loop p (run ml pat' opens caps) prev s
| Plus p :: pat' => plus_loop p (run ml pat' opens caps) prev s
| Open :: pat' => run ml pat' (s :: opens) caps prev s
| Close :: pat' =>
    match opens with
    | o :: opens' =>
        run ml pat' opens' (take (length o - length s) o :: caps) prev s
    | [] => None
    end
| Bol :: pat' => if at_bol ml prev then run ml pat' opens caps prev s else None
| Eol :: pat' => if at_eol ml s then run ml pat' opens caps prev s else None
end.

(** The match array: the whole match at index 0, then the captures. *)
Definition match_array (s : jsstring) (r : list jsstring * jsstring)
  : list jsstring :=
take (length s - length (snd r)) s :: fst r.

(** Try every start position from the left, the first one that matches
  wins. *)
Fixpoint search (ml : bool) (pat : list Node) (prev : option N)
  (s : jsstring) : option (list jsstring) :=
match run ml pat [] [] prev s with
| Some r => Some (match_array s r)
| None =>
    match s with
    | c :: s' => search ml pat (Some c) s'
    | [] => None
    end
end.

(** [String.prototype.match] with a pattern that has no [g] flag:
  the match array of the leftmost match, or [None] for [null]. *)
Definition exec (ml : bool) (pat : list Node) (s : jsstring)
  : option (list jsstring) :=
search ml pat None s.

(** the tokens of a literal piece of pattern *)
Definition lits (l : jsstring) : list Node := map Lit l.

End RegExp.

Import RegExp.

(* ===================================================================== *)
(** * network.ts: the line parser *)
(* ===================================================================== *)

Inductive MonitorEventType : Type :=
| connected | disconnected | connecting | connectivity.

(** [interface MonitorEvent]: the optional fields are options.  The field
    [connectivity] is declared with the type [ConnectivityState], but the
    parser stores the captured text under a cast, so it is a string here. *)
Record MonitorEvent : Type := mkMonitorEvent {
  ev_type : MonitorEventType;
  ev_device : option jsstring;
  ev_ssid : option jsstring;
  ev_connectivity : option jsstring
}.

(** [/^(\w+): connected$/] *)
Definition re_connected : list Node :=
  [Bol; Open; Plus word; Close] ++ lits (js ": connected") ++ [Eol].

(** [/^(\w+): disconnected$/] *)
Definition re_disconnected : list Node :=
  [Bol; Open; Plus word; Close] ++ lits (js ": disconnected") ++ [Eol].

(** [/^(\w+): using connection '(.+)'$/] *)
Definition re_using : list Node :=
  [Bol; Open; Plus word; Close] ++ lits (js ": using connection '")
  ++ [Open; Plus dot; Close] ++ lits (js "'") ++ [Eol].

(** [/^Connectivity is now '(\w+)'$/] *)
Definition re_connectivity : list Node :=
  [Bol] ++ lits (js "Connectivity is now '") ++ [Open; Plus word; Close]
  ++ lits (js "'") ++ [Eol].

Definition parseMonitorLine (line : jsstring) : option MonitorEvent :=
  match exec false re_connected line with
  | Some connectedMatch =>
      Some (mkMonitorEvent connected (connectedMatch !! 1%nat) None None)
  | None =>
  match exec false re_disconnected line with
  | Some disconnectedMatch =>
      Some (mkMonitorEvent disconnected (disconnectedMatch !! 1%nat) None None)
  | None =>
  match exec false re_using line with
  | Some usingMatch =>
      Some (mkMonitorEvent connecting (usingMatch !! 1%nat)
              (usingMatch !! 2%nat) None)
  | None =>
  match exec false re_connectivity line with
  | Some connectivityMatch =>
      Some (mkMonitorEvent connectivity None None (connectivityMatch !! 1%nat))
  | None => None
  end end end end.

(* ===================================================================== *)
(** * Numbers *)
(* ===================================================================== *)

(** A JavaScript number is an IEEE 754 binary64 value: the primitive
    [float] of the kernel. *)

(** The Number value for a mathematical integer: the nearest binary64 value,
    ties to even. *)
Definition Z2float (z : Z) : float :=
  SF2Prim (binary_normalize prec emax z 0 false).

(** the integer a sequence of decimal digits writes *)
Definition digits_value (ds : jsstring) : Z :=
  fold_left (fun acc c => (10 * acc + (Z.of_N c - 48))%Z) ds 0%Z.

Fixpoint take_while {A} (p : A → bool) (l : list A) : list A :=
  match l with
  | x :: l' => if p x then x :: take_while p l' else []
  | [] => []
  end.

Fixpoint drop_while {A} (p : A → bool) (l : list A) : list A :=
  match l with
  | x :: l' => if p x then drop_while p l' else l
  | [] => []
  end.

(** [parseInt(s, 10)]: skip leading white space, read an optional sign, then
    the longest run of decimal digits; [NaN] when there is no digit. *)
Definition parseInt10 (s : jsstring) : float :=
  let s1 := drop_while space s in
  let '(negative, s2) :=
    match s1 with
    | 45 :: r => (true, r)
    | 43 :: r => (false, r)
    | _ => (false, s1)
    end in
  match take_while digit s2 with
  | [] => nan
  | ds =>
      let n := Z2float (digits_value ds) in
      if negative then (- n)%float else n
  end.

(** [Math.round(x)]: the integer nearest to [x], ties towards +∞; a zero,
    an infinity or NaN is returned as it is, and a result of zero keeps the
    sign of [x]. *)
Definition Math_round (x : float) : float :=
  match Prim2SF x with
  | S754_finite s m e =>
      (* x = v * 2^e *)
      let v := if s then Z.neg m else Z.pos m in
      (* floor (x + 1/2) *)
      let n := (if e <? 0 then (v + 2 ^ (- e - 1)) / 2 ^ (- e)
                else v * 2 ^ e)%Z in
      if (n =? 0)%Z && s then (-0)%float else Z2float n
  | _ => x
  end.

(* ===================================================================== *)
(** * network.ts: the fast path for the wifi signal *)
(* ===================================================================== *)

(** SyntaxCharacter of the pattern grammar *)
Definition syntax_char (c : N) : bool :=
  bool_decide (c ∈ js "^$\.*+?()[]{}|").

(** The text of [device] is pasted into the source of the pattern.  A name
    without syntax characters stands for itself; any other name gives a
    pattern outside the fragment of [RegExp] and is not modelled. *)
Definition device_pattern (device : jsstring) : option (list Node) :=
  if forallb (fun c => negb (syntax_char c)) device
  then Some (lits device) else None.

(** [new RegExp(`^\\s*${device}:\\s+\\d+\\s+(\\d+)\\.`, "m")] *)
Definition wireless_regex (device : jsstring) : option (list Node) :=
  d ← device_pattern device;
  Some ([Bol; Star space] ++ d ++ lits (js ":")
        ++ [Plus space; Plus digit; Plus space; Open; Plus digit; Close]
        ++ lits (js ".")).

(** [readWifiSignal(device)].  [file] is the text of [/proc/net/wireless],
    [None] when reading it throws.  The outer option of the result is [None]
    for a device name that is not modelled (see [device_pattern]); the inner
    one is the [number | null] of the source. *)
Definition readWifiSignal (file : option jsstring) (device : jsstring)
    : option (option float) :=
  regex ← wireless_regex device;
  Some (match file with
        | None => None
        | Some text =>
            match exec true regex text with
            | None => None
            | Some mt =>
                match mt !! 1%nat with
                | None | Some [] => None
                | Some m1 =>
                    let linkQuality := parseInt10 m1 in
                    Some (Math_round ((linkQuality / 70) * 100)%float)
                end
            end
        end).

(** a [/proc/net/wireless] with one interface, at link quality 32 *)
Definition proc_net_wireless_sample : jsstring :=
  js "Inter-| sta-|   Quality        |   Discarded packets               | Missed | WE"
  ++ [10] ++
  js " face | tus | link level noise |  nwid  crypt   frag  retry   misc | beacon | 22"
  ++ [10] ++
  js " wlan0: 0000   32.  -78.  -256        0      0      0      0      0        0"
  ++ [10].

(* ===================================================================== *)
(** * audio.ts: the line parser *)
(* ===================================================================== *)

(** [interface AudioEvent].  [action] and [object] are declared with the
    union types [AudioEventAction] and [AudioEventObject], but the parser
    stores the captured text under a cast, so they are strings here. *)
Record AudioEvent : Type := mkAudioEvent {
  action : jsstring;
  object : jsstring;
  index : float
}.

(** [/^Event '(\w+)' on ([\w-]+) #(\d+)$/] *)
Definition re_event : list Node :=
  [Bol] ++ lits (js "Event '") ++ [Open; Plus word; Close]
  ++ lits (js "' on ") ++ [Open; Plus word_or_hyphen; Close]
  ++ lits (js " #") ++ [Open; Plus digit; Close; Eol].

Definition parseSubscribeLine (line : jsstring) : option AudioEvent :=
  match exec false re_event line with
  | None => None
  | Some mt =>
      match mt !! 1%nat, mt !! 2%nat, mt !! 3%nat with
      | Some ((_ :: _) as action), Some ((_ :: _) as object),
        Some ((_ :: _) as index) =>
          Some (mkAudioEvent action object (parseInt10 index))
      | _, _, _ => None
      end
  end.

(* ===================================================================== *)
(** * daemon-manager.ts: the process supervisor *)
(* ===================================================================== *)

Module DaemonManager.

(** [type DaemonState = "running" | "stopped"] *)
Inductive DaemonState : Type := running | stopped.

#[export] Instance DaemonState_eq_dec : EqDecision DaemonState.
Proof. solve_decision. Defined.

#[export] Instance DaemonState_inhabited : Inhabited DaemonState :=
  populate stopped.

(** [interface Daemon].  [state] is a [SubscriptionRef]: a reference to a
    cell, kept as the cell's address in the store of the world, so that two
    entries holding the same reference share the cell.  [fiber] is the
    handle of a runtime fiber, an index in the table of fibers. *)
Record Daemon : Type := mkDaemon {
  name : string;
  command : string * list string;
  state : nat;
  fiber : option nat
}.

(** [Omit<Daemon, "state" | "fiber">], the argument of [set]: a name and a
    command, and by its type neither a state nor a fiber *)
Record DaemonDef : Type := mkDaemonDef {
  def_name : string;
  def_command : string * list string
}.

(** [PlatformError] of the platform library, opaque here *)
Inductive PlatformError : Type := mkPlatformError (reason : string).

(** the failure of an operation of the service *)
Inductive DaemonNotFoundError : Type :=
  mkDaemonNotFoundError (daemonName : string).

(** the failures of a supervising fiber *)
Inductive FiberError : Type :=
| DaemonDiedError (daemon : Daemon) (exitCode : Z) (message : string)
| Platform (e : PlatformError).

(** a fiber forked by [start]: it runs [spawnDaemon] for the entry [start]
    looked up; [interrupted] is set by [Fiber.interrupt] *)
Record Fiber : Type := mkFiber {
  task : Daemon;
  interrupted : bool
}.

(** The state of the service: the [MutableHashMap] of daemons, the store of
    the [SubscriptionRef] cells and the fibers forked into the scope. *)
Record World : Type := mkWorld {
  daemons : gmap string Daemon;
  refs : list DaemonState;
  fibers : list Fiber
}.

Definition empty : World := mkWorld ∅ [] [].

(** ** Effects

    An effect of the generator functions: it reads and writes the world and
    either fails with an error of type [E] or succeeds with a value.  What
    was written before a failure stays written. *)
Definition Eff (E A : Type) : Type := World → (E + A) * World.

Definition succeed {E A} (a : A) : Eff E A := λ w, (inr a, w).

Definition fail {E A} (e : E) : Eff E A := λ w, (inl e, w).

Definition bind {E A B} (m : Eff E A) (k : A → Eff E B) : Eff E B :=
  λ w, match m w with
       | (inr a, w') => k a w'
       | (inl e, w') => (inl e, w')
       end.

Notation "'let*' x ':=' m 'in' k" := (bind m (λ x, k))
  (at level 10, x name, m at level 100, k at level 200).
Notation "'do' m 'in' k" := (bind m (λ _, k))
  (at level 10, m at level 100, k at level 200).

(** [MutableHashMap.get(daemons, name)] *)
Definition MutableHashMap_get {E} (n : string) : Eff E (option Daemon) :=
  λ w, (inr (daemons w !! n), w).

(** [MutableHashMap.set(daemons, name, d)] *)
Definition MutableHashMap_set {E} (n : string) (d : Daemon) : Eff E unit :=
  λ w, (inr (), mkWorld (<[n := d]> (daemons w)) (refs w) (fibers w)).

(** [SubscriptionRef.make(v)]: a fresh cell *)
Definition SubscriptionRef_make {E} (v : DaemonState) : Eff E nat :=
  λ w, (inr (length (refs w)),
        mkWorld (daemons w) (refs w ++ [v]) (fibers w)).

(** [SubscriptionRef.get(r)] *)
Definition SubscriptionRef_get {E} (r : nat) : Eff E DaemonState :=
  λ w, (inr (refs w !!! r), w).

(** [SubscriptionRef.set(r, v)] *)
Definition SubscriptionRef_set {E} (r : nat) (v : DaemonState) : Eff E unit :=
  λ w, (inr (), mkWorld (daemons w) (<[r := v]> (refs w)) (fibers w)).

(** [Effect.forkIn(scope)] of [spawnDaemon] for the entry [d]: a new fiber *)
Definition forkIn_scope {E} (d : Daemon) : Eff E nat :=
  λ w, (inr (length (fibers w)),
        mkWorld (daemons w) (refs w) (fibers w ++ [mkFiber d false])).

(** [Fiber.interrupt(f)] *)
Definition Fiber_interrupt {E} (f : nat) : Eff E unit :=
  λ w, (inr (),
        mkWorld (daemons w) (refs w)
          (alter (λ fb, mkFiber (task fb) true) f (fibers w))).

(** ** The operations *)

Definition set (daemon : DaemonDef) : Eff DaemonNotFoundError unit :=
  let* existing := MutableHashMap_get (def_name daemon) in
  match existing with
  | None =>
      let* state := SubscriptionRef_make stopped in
      MutableHashMap_set (def_name daemon)
        (mkDaemon (def_name daemon) (def_command daemon) state None)
  | Some existing_value =>
      MutableHashMap_set (def_name daemon)
        (mkDaemon (def_name daemon) (def_command daemon)
           (state existing_value) None)
  end.

Definition start (n : string) : Eff DaemonNotFoundError unit :=
  let* daemon := MutableHashMap_get n in
  match daemon with
  | None => fail (mkDaemonNotFoundError n)
  | Some daemon_value =>
      let* st := SubscriptionRef_get (state daemon_value) in
      if decide (st = running) then succeed ()
      else
        let* fiber := forkIn_scope daemon_value in
        do SubscriptionRef_set (state daemon_value) running in
        MutableHashMap_set n
          (mkDaemon (name daemon_value) (command daemon_value)
             (state daemon_value) (Some fiber))
  end.

Definition stop (n : string) : Eff DaemonNotFoundError unit :=
  let* daemon := MutableHashMap_get n in
  match daemon with
  | None => fail (mkDaemonNotFoundError n)
  | Some daemon_value =>
      match fiber daemon_value with
      | Some f =>
          do Fiber_interrupt f in
          SubscriptionRef_set (state daemon_value) stopped
      | None => succeed ()
      end
  end.

(** [list()]: the values of the map *)
Definition list_daemons : Eff DaemonNotFoundError (list Daemon) :=
  λ w, (inr (map snd (map_to_list (daemons w))), w).

(** ** The supervising task *)

(** A child process as [spawnDaemon] sees it: the outcome of waiting for its
    exit, and its error stream as the decoded chunks it delivers, ended by a
    stream failure or not. *)
Record Process : Type := mkProcess {
  exitCode : PlatformError + Z;
  stderr : list string * option PlatformError
}.

(** how a fiber ends *)
Inductive Exit (E A : Type) : Type :=
| Success (a : A)
| Failure (e : E).
Arguments Success {E A} a.
Arguments Failure {E A} e.

(** [Stream.runFold] with the empty string and [(acc, chunk) => acc + chunk] *)
Definition runFold (chunks : list string) : string :=
  fold_left String.append chunks EmptyString.

(** [spawnDaemon], for the outcome [started] of [Command.start] on the
    command of the daemon.  Its success type is [never]. *)
Definition spawnDaemon (daemon_value : Daemon)
    (started : PlatformError + Process) : Exit FiberError Empty_set :=
  match started with
  | inl e => Failure (Platform e)
  | inr process =>
      match exitCode process with
      | inl e => Failure (Platform e)
      | inr exit_code =>
          match stderr process with
          | (_, Some e) => Failure (Platform e)
          | (chunks, None) =>
              Failure (DaemonDiedError daemon_value exit_code (runFold chunks))
          end
      end
  end.

(** what the fiber [fb] computes when it is left to run: [spawnDaemon] for
    the entry it was forked for *)
Definition supervise (fb : Fiber) (started : PlatformError + Process)
    : Exit FiberError Empty_set :=
  spawnDaemon (task fb) started.

(** the daemon of the tests *)
Definition test_daemon : DaemonDef :=
  mkDaemonDef "test-daemon" ("sleep", ["10"]).

(** the service after [set(test_daemon)] and [start("test-daemon")] *)
Definition started_world : World :=
  (start "test-daemon" (set test_daemon empty).2).2.

End DaemonManager.

(* ===================================================================== *)
(** * The monitors: what both share *)
(* ===================================================================== *)

(** an [Error] object, by its message *)
Definition JsError : Type := jsstring.

(** [buffer.split("\n")]: the pieces between line feeds, at least one *)
Fixpoint split_lines (buffer : jsstring) : list jsstring :=
  match buffer with
  | [] => [[]]
  | c :: rest =>
      if c =? 10 then [] :: split_lines rest
      else match split_lines rest with
           | l :: ls => (c :: l) :: ls
           | [] => [[c]]
           end
  end.

(** [options.callback?.(...)]: the call is made when the callback is there *)
Definition call {Action} (supplied : bool) (a : Action) : list Action :=
  if supplied then [a] else [].

(** Where the read loop of a child stands. *)
Inductive LoopState (K : Type) : Type :=
| Waiting                 (* at [for await], before the next chunk *)
| Suspended (k : K)       (* at an [await] inside the handling of a line *)
| Finished.               (* the loop has returned, or never ran *)
Arguments Waiting {K}.
Arguments Suspended {K} k.
Arguments Finished {K}.

Record ReadLoop (K : Type) : Type := mkReadLoop {
  buffer : jsstring;
  phase : LoopState K
}.
Arguments mkReadLoop {K} buffer phase.
Arguments buffer {K} r.
Arguments phase {K} r.

(* ===================================================================== *)
(** * network.ts: the network monitor *)
(* ===================================================================== *)

(** [createNetworkMonitor] as a machine driven by the event loop.  The
    variables of the closure and the work that is pending on the event loop
    (suspended async functions, timers) form the state; an event is the stop
    function being called or one pending piece of work being run; a step
    returns the calls the monitor makes meanwhile, in order.  The callbacks
    of the options are taken not to throw. *)
Module NetworkMonitor.

Inductive ConnectionType : Type := wifi | ethernet | other.

Record NetworkStatus : Type := mkNetworkStatus {
  ns_name : jsstring;
  ns_type : ConnectionType;
  ns_device : jsstring;
  ns_signal : option float;
  ns_rate : option jsstring;
  ns_frequency : option jsstring;
  ns_channel : option float;
  ns_security : option jsstring
}.

(** [NetworkMonitorOptions]: for each callback whether it is supplied *)
Record NetworkMonitorOptions : Type := mkOptions {
  onConnect : bool;
  onDisconnect : bool;
  onSignalChange : bool;
  onError : bool;
  signalPollInterval : option N
}.

(** what the monitor does to the outside *)
Inductive Action : Type :=
| Spawn (pid : nat)                       (* Bun.spawn(["nmcli", "monitor"]) *)
| Kill (pid : nat)                        (* proc.kill() *)
| SetTimeout_startMonitor                 (* setTimeout(startMonitor, 1000) *)
| SetInterval (timer : nat) (ms : N)
| ClearInterval (timer : nat)
| GetActiveConnection                     (* the query is sent *)
| ReadWifiSignal (device : jsstring)
| OnConnect (status : NetworkStatus)
| OnDisconnect
| OnSignalChange (signal : float)
| OnError (err : JsError).

(** how [await getActiveConnection()] ends *)
Inductive QueryResult : Type :=
| Resolved (status : option NetworkStatus)
| Rejected (err : JsError).

Inductive Event : Type :=
| Stop                                    (* the returned function is called *)
| InitQueryDone (r : QueryResult) (piped : bool)
                                          (* [init] resumes after its query *)
| ChildExit                               (* [onExit] of a child *)
| RestartTimer (piped : bool)             (* a [setTimeout] timer fires *)
| Chunk (pid : nat) (text : jsstring)     (* the read loop gets a chunk *)
| StreamError (pid : nat) (err : JsError) (* reading the stream throws *)
| StreamEnd (pid : nat)                   (* the stream is done *)
| QueryDone (pid : nat) (r : QueryResult) (* a read loop resumes after its
                                             query *)
| Tick (timer : nat)                      (* an interval timer fires *)
| SignalRead (signal : option float).     (* a tick resumes after
                                             [readWifiSignal] *)

(** [piped] says whether the [stdout] of the child that is spawned is a
    [ReadableStream].  The text of a [Chunk] is what the [TextDecoder] makes
    of the bytes. *)

Record State : Type := mkState {
  (* the variables of the closure *)
  proc : option nat;
  signalInterval : option nat;
  stopped : bool;
  currentDevice : option jsstring;
  (* the pending work *)
  init_pending : bool;       (* [init] is at its [await] *)
  loops : list (ReadLoop (list jsstring));
                             (* per child, its read loop; a suspended loop
                                keeps the lines of the chunk still to do *)
  restarts : nat;            (* [setTimeout] timers not fired yet *)
  polls : nat;               (* ticks at their [await] *)
  intervals : list bool      (* per interval timer, whether it is set *)
}.

Definition set_proc (v : option nat) (s : State) : State :=
  mkState v (signalInterval s) (stopped s) (currentDevice s) (init_pending s)
    (loops s) (restarts s) (polls s) (intervals s).

Definition set_signalInterval (v : option nat) (s : State) : State :=
  mkState (proc s) v (stopped s) (currentDevice s) (init_pending s)
    (loops s) (restarts s) (polls s) (intervals s).

Definition set_stopped (v : bool) (s : State) : State :=
  mkState (proc s) (signalInterval s) v (currentDevice s) (init_pending s)
    (loops s) (restarts s) (polls s) (intervals s).

Definition set_currentDevice (v : option jsstring) (s : State) : State :=
  mkState (proc s) (signalInterval s) (stopped s) v (init_pending s)
    (loops s) (restarts s) (polls s) (intervals s).

Definition set_init_pending (v : bool) (s : State) : State :=
  mkState (proc s) (signalInterval s) (stopped s) (currentDevice s) v
    (loops s) (restarts s) (polls s) (intervals s).

Definition set_loops (v : list (ReadLoop (list jsstring))) (s : State)
    : State :=
  mkState (proc s) (signalInterval s) (stopped s) (currentDevice s)
    (init_pending s) v (restarts s) (polls s) (intervals s).

Definition set_restarts (v : nat) (s : State) : State :=
  mkState (proc s) (signalInterval s) (stopped s) (currentDevice s)
    (init_pending s) (loops s) v (polls s) (intervals s).

Definition set_polls (v : nat) (s : State) : State :=
  mkState (proc s) (signalInterval s) (stopped s) (currentDevice s)
    (init_pending s) (loops s) (restarts s) v (intervals s).

Definition set_intervals (v : list bool) (s : State) : State :=
  mkState (proc s) (signalInterval s) (stopped s) (currentDevice s)
    (init_pending s) (loops s) (restarts s) (polls s) v.

Definition set_loop (pid : nat) (l : ReadLoop (list jsstring)) (s : State)
    : State :=
  set_loops (<[pid := l]> (loops s)) s.

(** move the read loop of a child to another point *)
Definition set_at (pid : nat) (a : LoopState (list jsstring)) (s : State)
    : State :=
  set_loops (alter (λ l, mkReadLoop (buffer l) a) pid (loops s)) s.

Section Monitor.
Variable options : NetworkMonitorOptions.

(** [startMonitor] *)
Definition startMonitor (piped : bool) (s : State) : State * list Action :=
  if stopped s then (s, [])
  else
    let pid := length (loops s) in
    let s := set_proc (Some pid) s in
    if piped then
      (set_loops (loops s ++ [mkReadLoop [] Waiting]) s, [Spawn pid])
    else
      (set_loops (loops s ++ [mkReadLoop [] Finished]) s,
       Spawn pid
       :: call (onError options) (OnError (js "Failed to capture nmcli stdout"))).

(** the body of [for (const line of lines)], from the line where it stands
    until it is suspended at the query or the lines are done *)
Fixpoint handle_lines (pid : nat) (lines : list jsstring) (s : State)
    : State * list Action :=
  match lines with
  | [] => (set_at pid Waiting s, [])
  | line :: rest =>
      match parseMonitorLine line with
      | None => handle_lines pid rest s
      | Some event =>
          match ev_type event, ev_device event with
          | connected, Some ((_ :: _) as device) =>
              let s := set_currentDevice (Some device) s in
              (set_at pid (Suspended rest) s, [GetActiveConnection])
          | disconnected, _ =>
              let s := set_currentDevice None s in
              let '(s', acts) := handle_lines pid rest s in
              (s', call (onDisconnect options) OnDisconnect ++ acts)
          | _, _ => handle_lines pid rest s
          end
      end
  end.

(** [startSignalPolling] *)
Definition startSignalPolling (s : State) : State * list Action :=
  let interval := default 1000 (signalPollInterval options) in
  let timer := length (intervals s) in
  (set_signalInterval (Some timer) (set_intervals (intervals s ++ [true]) s),
   [SetInterval timer interval]).

(** the function [createNetworkMonitor] returns *)
Definition stop (s : State) : State * list Action :=
  let s := set_stopped true s in
  let kill := match proc s with Some pid => [Kill pid] | None => [] end in
  match signalInterval s with
  | Some timer =>
      (set_intervals (<[timer := false]> (intervals s)) s,
       kill ++ [ClearInterval timer])
  | None => (s, kill)
  end.

Definition step (s : State) (ev : Event) : State * list Action :=
  match ev with
  | Stop => stop s
  | InitQueryDone r piped =>
      if init_pending s then
        let s := set_init_pending false s in
        let '(s, acts1) :=
          match r with
          | Resolved (Some status) =>
              (set_currentDevice (Some (ns_device status)) s,
               call (onConnect options) (OnConnect status))
          | Resolved None => (s, [])
          | Rejected err => (s, call (onError options) (OnError err))
          end in
        let '(s, acts2) := startMonitor piped s in
        let '(s, acts3) := startSignalPolling s in
        (s, acts1 ++ acts2 ++ acts3)
      else (s, [])
  | ChildExit =>
      if stopped s then (s, [])
      else (set_restarts (S (restarts s)) s, [SetTimeout_startMonitor])
  | RestartTimer piped =>
      match restarts s with
      | S n => startMonitor piped (set_restarts n s)
      | O => (s, [])
      end
  | Chunk pid text =>
      match loops s !! pid with
      | Some (mkReadLoop buffer Waiting) =>
          if stopped s then (set_loop pid (mkReadLoop buffer Finished) s, [])
          else
            let lines := split_lines (buffer ++ text) in
            handle_lines pid (removelast lines)
              (set_loop pid (mkReadLoop (List.last lines []) Waiting) s)
      | _ => (s, [])
      end
  | StreamError pid err =>
      match loops s !! pid with
      | Some (mkReadLoop buffer Waiting) =>
          (set_loop pid (mkReadLoop buffer Finished) s,
           if stopped s then [] else call (onError options) (OnError err))
      | _ => (s, [])
      end
  | StreamEnd pid =>
      match loops s !! pid with
      | Some (mkReadLoop buffer Waiting) =>
          (set_loop pid (mkReadLoop buffer Finished) s, [])
      | _ => (s, [])
      end
  | QueryDone pid r =>
      match loops s !! pid with
      | Some (mkReadLoop buffer (Suspended rest)) =>
          let acts1 :=
            match r with
            | Resolved (Some status) =>
                call (onConnect options) (OnConnect status)
            | Resolved None => []
            | Rejected err => call (onError options) (OnError err)
            end in
          let '(s, acts2) := handle_lines pid rest s in
          (s, acts1 ++ acts2)
      | _ => (s, [])
      end
  | Tick timer =>
      match intervals s !! timer with
      | Some true =>
          match stopped s, currentDevice s with
          | false, Some ((_ :: _) as device) =>
              (set_polls (S (polls s)) s, [ReadWifiSignal device])
          | _, _ => (s, [])
          end
      | _ => (s, [])
      end
  | SignalRead signal =>
      match polls s with
      | S n =>
          (set_polls n s,
           match signal with
           | Some v => call (onSignalChange options) (OnSignalChange v)
           | None => []
           end)
      | O => (s, [])
      end
  end.

(** run the events one after the other; for each one, what it made the
    monitor do *)
Fixpoint run (s : State) (evs : list Event)
    : State * list (Event * list Action) :=
  match evs with
  | [] => (s, [])
  | ev :: evs' =>
      let '(s1, acts) := step s ev in
      let '(s2, log) := run s1 evs' in
      (s2, (ev, acts) :: log)
  end.

(** [createNetworkMonitor(options)]: [init] runs up to its query *)
Definition create : State * list Action :=
  (mkState None None false None true [] 0 0 [], [GetActiveConnection]).

End Monitor.

(** a child is started *)
Definition is_spawn (a : Action) : bool :=
  match a with Spawn _ => true | _ => false end.

(** a restart is scheduled *)
Definition is_schedule (a : Action) : bool :=
  match a with SetTimeout_startMonitor => true | _ => false end.

(** a callback of the options is called *)
Definition is_callback (a : Action) : bool :=
  match a with
  | OnConnect _ | OnDisconnect | OnSignalChange _ | OnError _ => true
  | _ => false
  end.

(** the events that come from a child: its exit, a restart timer, and what
    its stream delivers *)
Definition from_child (ev : Event) : bool :=
  match ev with
  | ChildExit | RestartTimer _ | Chunk _ _ | StreamError _ _ | StreamEnd _ =>
      true
  | _ => false
  end.

(** What the log of a stopped monitor has to look like: no child is started
    and no restart is scheduled, and an event that comes from a child makes
    the monitor do nothing at all. *)
Definition quiet (log : list (Event * list Action)) : Prop :=
  Forall (λ entry,
            (∀ a, a ∈ entry.2 → is_spawn a = false ∧ is_schedule a = false)
            ∧ (from_child entry.1 = true → entry.2 = []))
    log.

(** The stronger reading, that after the stop no callback is called by
    anything the read loops and the children do, a resumed read loop
    included. *)
Definition silent (log : list (Event * list Action)) : Prop :=
  Forall (λ entry, ∀ a, a ∈ entry.2 → is_spawn a = false ∧ is_callback a = false)
    log.

(** all callbacks supplied *)
Definition all_callbacks : NetworkMonitorOptions :=
  mkOptions true true true true None.

(** a status as [getActiveConnection] gives it *)
Definition sample_status : NetworkStatus :=
  mkNetworkStatus (js "Chili") wifi (js "wlan0") (Some 80%float)
    (Some (js "130 Mbit/s")) (Some (js "2427 MHz")) (Some 4%float)
    (Some (js "WPA2")).

End NetworkMonitor.

(* ===================================================================== *)
(** * audio.ts: the audio monitor *)
(* ===================================================================== *)

(** [createAudioMonitor], as a machine of the same kind. *)
Module AudioMonitor.

(** the result of [getDefaultSinkVolume] *)
Record VolumeStatus : Type := mkVolumeStatus {
  volume : float;
  muted : bool
}.

Record AudioMonitorOptions : Type := mkOptions {
  onVolumeChange : bool;
  onDefaultSinkChange : bool;
  onError : bool
}.

Inductive Action : Type :=
| Spawn (pid : nat)                       (* Bun.spawn(["pactl", "subscribe"]) *)
| Kill (pid : nat)
| SetTimeout_startMonitor                 (* setTimeout(startMonitor, 1000) *)
| GetDefaultSinkVolume                    (* the query is sent *)
| GetDefaultSink
| OnVolumeChange (status : VolumeStatus)
| OnDefaultSinkChange (sinkName : jsstring)
| OnError (err : JsError).

(** how an [await] of a query ends *)
Inductive Outcome (A : Type) : Type :=
| Resolved (a : A)
| Rejected (err : JsError).
Arguments Resolved {A} a.
Arguments Rejected {A} err.

(** where the handling of a line is suspended, with the lines of the chunk
    still to do *)
Inductive Await : Type :=
| AwaitVolume (rest : list jsstring)      (* at [await getDefaultSinkVolume()] *)
| AwaitSink (rest : list jsstring).       (* at [await getDefaultSink()] *)

Inductive Event : Type :=
| Stop
| InitQueryDone (r : Outcome VolumeStatus) (piped : bool)
| ChildExit
| RestartTimer (piped : bool)
| Chunk (pid : nat) (text : jsstring)
| StreamError (pid : nat) (err : JsError)
| StreamEnd (pid : nat)
| VolumeDone (pid : nat) (r : Outcome VolumeStatus)
| SinkDone (pid : nat) (r : Outcome jsstring).

Record State : Type := mkState {
  proc : option nat;
  stopped : bool;
  init_pending : bool;
  loops : list (ReadLoop Await);
  restarts : nat
}.

Definition set_proc (v : option nat) (s : State) : State :=
  mkState v (stopped s) (init_pending s) (loops s) (restarts s).

Definition set_stopped (v : bool) (s : State) : State :=
  mkState (proc s) v (init_pending s) (loops s) (restarts s).

Definition set_init_pending (v : bool) (s : State) : State :=
  mkState (proc s) (stopped s) v (loops s) (restarts s).

Definition set_loops (v : list (ReadLoop Await)) (s : State) : State :=
  mkState (proc s) (stopped s) (init_pending s) v (restarts s).

Definition set_restarts (v : nat) (s : State) : State :=
  mkState (proc s) (stopped s) (init_pending s) (loops s) v.

Definition set_loop (pid : nat) (l : ReadLoop Await) (s : State) : State :=
  set_loops (<[pid := l]> (loops s)) s.

Definition set_at (pid : nat) (a : LoopState Await) (s : State) : State :=
  set_loops (alter (λ l, mkReadLoop (buffer l) a) pid (loops s)) s.

Section Monitor.
Variable options : AudioMonitorOptions.

Definition startMonitor (piped : bool) (s : State) : State * list Action :=
  if stopped s then (s, [])
  else
    let pid := length (loops s) in
    let s := set_proc (Some pid) s in
    if piped then
      (set_loops (loops s ++ [mkReadLoop [] Waiting]) s, [Spawn pid])
    else
      (set_loops (loops s ++ [mkReadLoop [] Finished]) s,
       Spawn pid
       :: call (onError options) (OnError (js "Failed to capture pactl stdout"))).

Fixpoint handle_lines (pid : nat) (lines : list jsstring) (s : State)
    : State * list Action :=
  match lines with
  | [] => (set_at pid Waiting s, [])
  | line :: rest =>
      match parseSubscribeLine line with
      | None => handle_lines pid rest s
      | Some event =>
          if decide (action event = js "change") then
            if decide (object event = js "sink") then
              (set_at pid (Suspended (AwaitVolume rest)) s,
               [GetDefaultSinkVolume])
            else if decide (object event = js "server") then
              (set_at pid (Suspended (AwaitSink rest)) s, [GetDefaultSink])
            else handle_lines pid rest s
          else handle_lines pid rest s
      end
  end.

Definition stop (s : State) : State * list Action :=
  let s := set_stopped true s in
  (s, match proc s with Some pid => [Kill pid] | None => [] end).

Definition step (s : State) (ev : Event) : State * list Action :=
  match ev with
  | Stop => stop s
  | InitQueryDone r piped =>
      if init_pending s then
        let s := set_init_pending false s in
        let acts1 :=
          match r with
          | Resolved status =>
              call (onVolumeChange options) (OnVolumeChange status)
          | Rejected err => call (onError options) (OnError err)
          end in
        let '(s, acts2) := startMonitor piped s in
        (s, acts1 ++ acts2)
      else (s, [])
  | ChildExit =>
      if stopped s then (s, [])
      else (set_restarts (S (restarts s)) s, [SetTimeout_startMonitor])
  | RestartTimer piped =>
      match restarts s with
      | S n => startMonitor piped (set_restarts n s)
      | O => (s, [])
      end
  | Chunk pid text =>
      match loops s !! pid with
      | Some (mkReadLoop buffer Waiting) =>
          if stopped s then (set_loop pid (mkReadLoop buffer Finished) s, [])
          else
            let lines := split_lines (buffer ++ text) in
            handle_lines pid (removelast lines)
              (set_loop pid (mkReadLoop (List.last lines []) Waiting) s)
      | _ => (s, [])
      end
  | StreamError pid err =>
      match loops s !! pid with
      | Some (mkReadLoop buffer Waiting) =>
          (set_loop pid (mkReadLoop buffer Finished) s,
           if stopped s then [] else call (onError options) (OnError err))
      | _ => (s, [])
      end
  | StreamEnd pid =>
      match loops s !! pid with
      | Some (mkReadLoop buffer Waiting) =>
          (set_loop pid (mkReadLoop buffer Finished) s, [])
      | _ => (s, [])
      end
  | VolumeDone pid r =>
      match loops s !! pid with
      | Some (mkReadLoop buffer (Suspended (AwaitVolume rest))) =>
          let acts1 :=
            match r with
            | Resolved status =>
                call (onVolumeChange options) (OnVolumeChange status)
            | Rejected err => call (onError options) (OnError err)
            end in
          let '(s, acts2) := handle_lines pid rest s in
          (s, acts1 ++ acts2)
      | _ => (s, [])
      end
  | SinkDone pid r =>
      match loops s !! pid with
      | Some (mkReadLoop buffer (Suspended (AwaitSink rest))) =>
          match r with
          | Resolved sinkName =>
              (set_at pid (Suspended (AwaitVolume rest)) s,
               call (onDefaultSinkChange options) (OnDefaultSinkChange sinkName)
               ++ [GetDefaultSinkVolume])
          | Rejected err =>
              let '(s, acts2) := handle_lines pid rest s in
              (s, call (onError options) (OnError err) ++ acts2)
          end
      | _ => (s, [])
      end
  end.

Fixpoint run (s : State) (evs : list Event)
    : State * list (Event * list Action) :=
  match evs with
  | [] => (s, [])
  | ev :: evs' =>
      let '(s1, acts) := step s ev in
      let '(s2, log) := run s1 evs' in
      (s2, (ev, acts) :: log)
  end.

(** [createAudioMonitor(options)]: [init] runs up to its query *)
Definition create : State * list Action :=
  (mkState None false true [] 0, [GetDefaultSinkVolume]).

End Monitor.

Definition is_spawn (a : Action) : bool :=
  match a with Spawn _ => true | _ => false end.

Definition is_schedule (a : Action) : bool :=
  match a with SetTimeout_startMonitor => true | _ => false end.

Definition is_callback (a : Action) : bool :=
  match a with
  | OnVolumeChange _ | OnDefaultSinkChange _ | OnError _ => true
  | _ => false
  end.

Definition from_child (ev : Event) : bool :=
  match ev with
  | ChildExit | RestartTimer _ | Chunk _ _ | StreamError _ _ | StreamEnd _ =>
      true
  | _ => false
  end.

Definition quiet (log : list (Event * list Action)) : Prop :=
  Forall (λ entry,
            (∀ a, a ∈ entry.2 → is_spawn a = false ∧ is_schedule a = false)
            ∧ (from_child entry.1 = true → entry.2 = []))
    log.

End AudioMonitor.

(* ===================================================================== *)
(** * The line grammars of the specification *)
(* ===================================================================== *)

(** The four productions of the network monitor,
    ["<device>: connected"], ["<device>: disconnected"],
    ["<device>: using connection '<ssid>'"] and
    ["Connectivity is now '<level>'"], for the levels in [levels].
    [<device>] and [<ssid>] stand for any text. *)
Definition network_line_grammar (levels : jsstring → Prop) (line : jsstring)
    : Prop :=
  (∃ device, line = device ++ js ": connected")
  ∨ (∃ device, line = device ++ js ": disconnected")
  ∨ (∃ device ssid,
        line = device ++ js ": using connection '" ++ ssid ++ js "'")
  ∨ (∃ level, levels level ∧ line = js "Connectivity is now '" ++ level ++ js "'").

(** [<full|limited|none>] *)
Definition spec_levels (level : jsstring) : Prop :=
  level ∈ [js "full"; js "limited"; js "none"].

(** a run of one or more characters of a class *)
Definition run_of (p : N → bool) (w : jsstring) : Prop :=
  w ≠ [] ∧ forallb p w = true.

(** the class does not go on at the front of [t] *)
Definition stops (p : N → bool) (t : jsstring) : Prop :=
  match t with
  | [] => True
  | c :: _ => p c = false
  end.

(** two texts agree as far as both go, read from the front *)
Fixpoint prefix_agree (a b : jsstring) : bool :=
  match a, b with
  | x :: a', y :: b' => (x =? y) && prefix_agree a' b'
  | _, _ => true
  end.

(** the same, read from the end *)
Definition suffix_agree (a b : jsstring) : bool :=
  prefix_agree (rev a) (rev b).

(** The production of the audio monitor,
    ["Event '<action>' on <objectType> #<index>"], for the actions in
    [actions] and the object types in [objects]; [<index>] is a run of
    decimal digits. *)
Definition audio_line_grammar (actions objects : jsstring → Prop)
    (line : jsstring) : Prop :=
  ∃ action objectType index,
    actions action ∧ objects objectType ∧ run_of digit index
    ∧ line = js "Event '" ++ action ++ js "' on " ++ objectType
             ++ js " #" ++ index.

(** [<new|change|remove>] *)
Definition spec_actions (a : jsstring) : Prop :=
  a ∈ [js "new"; js "change"; js "remove"].

(** [<sink|source|server|client|card|sink-input|source-output|module>] *)
Definition spec_objects (o : jsstring) : Prop :=
  o ∈ [js "sink"; js "source"; js "server"; js "client"; js "card";
       js "sink-input"; js "source-output"; js "module"].

(** a device name with a character outside [[A-Za-z0-9_]] *)
Definition has_nonword (device : jsstring) : Prop :=
  existsb (λ c, negb (word c)) device = true.

(** a device name that begins like a line of the third production *)
Definition begins_using (device : jsstring) : Prop :=
  ∃ w rest, run_of word w ∧ device = w ++ js ": using connection '" ++ rest.

(** [round(q / 70 * 100)] in exact arithmetic: the integer nearest to
    [100 q / 70] (no [q] gives a tie) *)
Definition percent_of_quality (q : Z) : Z := ((200 * q + 70) / 140)%Z.

(* ===================================================================== *)
(** * truncate.ts *)
(* ===================================================================== *)

(** [s.slice(start, end)] for integers [start] and [end]: a negative index
    counts from the end of the string, and both are clamped to the string. *)
Definition slice (s : jsstring) (start end_ : Z) : jsstring :=
  let len := Z.of_nat (length s) in
  let from := (if start <? 0 then Z.max (len + start) 0 else Z.min start len)%Z in
  let to := (if end_ <? 0 then Z.max (len + end_) 0 else Z.min end_ len)%Z in
  take (Z.to_nat (Z.max (to - from) 0)) (drop (Z.to_nat from) s).

(** [truncate(str, maxLength)], for an integer [maxLength] *)
Definition truncate (str : jsstring) (maxLength : Z) : jsstring :=
  if (Z.of_nat (length str) <=? maxLength)%Z then str
  else
    let ellipsis := js "..." in
    let truncateAt := (maxLength - Z.of_nat (length ellipsis))%Z in
    if (truncateAt <=? 0)%Z then slice ellipsis 0 maxLength
    else slice str 0 truncateAt ++ ellipsis.

(* ===================================================================== *)
(** * daemon-manager.ts: sequences of operations *)
(* ===================================================================== *)

Module Supervision.
Import DaemonManager.

(** an operation of the service, as a caller issues it *)
Inductive Op : Type :=
| OpSet (def : DaemonDef)
| OpStart (n : string)
| OpStop (n : string).

(** the daemon an operation names *)
Definition target (op : Op) : string :=
  match op with
  | OpSet def => def_name def
  | OpStart n => n
  | OpStop n => n
  end.

(** the service after an operation, failed or not *)
Definition perform (w : World) (op : Op) : World :=
  match op with
  | OpSet def => (set def w).2
  | OpStart n => (start n w).2
  | OpStop n => (stop n w).2
  end.

(** the service after a sequence of operations on a fresh service *)
Definition after (ops : list Op) : World := foldl perform empty ops.

(** what [SubscriptionRef.get(daemon.state)] gives for the daemon registered
    under a name *)
Definition observe (w : World) (n : string) : option DaemonState :=
  (λ d, refs w !!! state d) <$> daemons w !! n.

(** the handle recorded for the daemon registered under a name *)
Definition handle (w : World) (n : string) : option nat :=
  daemons w !! n ≫= fiber.

(** Each entry is stored under its own name, the cell of its state and its
    fiber are there, and no two daemons share a cell. *)
Record well_formed (w : World) : Prop := {
  wf_name : ∀ n d, daemons w !! n = Some d → name d = n;
  wf_cell : ∀ n d, daemons w !! n = Some d → (state d < length (refs w))%nat;
  wf_fiber : ∀ n d f,
    daemons w !! n = Some d → fiber d = Some f → (f < length (fibers w))%nat;
  wf_own : ∀ n1 n2 d1 d2,
    daemons w !! n1 = Some d1 → daemons w !! n2 = Some d2 →
    state d1 = state d2 → n1 = n2
}.

End Supervision.

(* ===================================================================== *)
(** * The monitors: cutting the stream into lines *)
(* ===================================================================== *)

(** The three statements with which the read loop of either monitor takes a
    chunk in, [buffer += text; lines = buffer.split("\n");
    buffer = lines.pop() ?? ""]: the complete lines to handle and the partial
    line kept for the next chunk. *)
Definition feed (buffer text : jsstring) : list jsstring * jsstring :=
  let lines := split_lines (buffer ++ text) in
  (removelast lines, List.last lines []).

(** the text a list of complete lines was cut from *)
Definition unlines (lines : list jsstring) : jsstring :=
  concat (map (λ line, line ++ [10]) lines).

(** the rounds of a child that exits and is started again by the timer *)
Definition network_rounds (n : nat) : list NetworkMonitor.Event :=
  concat (replicate n [NetworkMonitor.ChildExit;
                       NetworkMonitor.RestartTimer true]).

Definition audio_rounds (n : nat) : list AudioMonitor.Event :=
  concat (replicate n [AudioMonitor.ChildExit; AudioMonitor.RestartTimer true]).

(** an event of the audio server the monitor reacts to: a change on a sink
    or on the server *)
Definition audio_relevant (ev : AudioEvent) : Prop :=
  action ev = js "change" ∧ (object ev = js "sink" ∨ object ev = js "server").

(** an event of the network manager the monitor reacts to: a device that
    connected or disconnected *)
Definition network_relevant (ev : MonitorEvent) : Prop :=
  ev_type ev = connected ∨ ev_type ev = disconnected.

(* ===================================================================== *)
(** * network.ts: the one-shot queries *)
(* ===================================================================== *)

(** ** Strings *)

(** [s.trim()]: white space and line terminators go from both ends *)
Definition trim (s : jsstring) : jsstring :=
  rev (drop_while space (rev (drop_while space s))).

(** [s.split(sep)] for a separator of one character *)
Fixpoint split_char (sep : N) (s : jsstring) : list jsstring :=
  match s with
  | [] => [[]]
  | c :: rest =>
      if c =? sep then [] :: split_char sep rest
      else match split_char sep rest with
           | l :: ls => (c :: l) :: ls
           | [] => [[c]]
           end
  end.

(** [s.split(/(?<!\\):/)]: the text is cut at each colon that does not come
    after a backslash; [prev] is the character before [s]. *)
Fixpoint split_unescaped (prev : option N) (s : jsstring) : list jsstring :=
  match s with
  | [] => [[]]
  | c :: rest =>
      if (c =? 58) && negb (bool_decide (prev = Some 92))
      then [] :: split_unescaped (Some c) rest
      else match split_unescaped (Some c) rest with
           | l :: ls => (c :: l) :: ls
           | [] => [[c]]
           end
  end.

(** [s.replace(/\\:/g, ":")] *)
Fixpoint unescape_colons (s : jsstring) : jsstring :=
  match s with
  | [] => []
  | c :: rest =>
      match rest with
      | d :: rest' =>
          if (c =? 92) && (d =? 58) then 58 :: unescape_colons rest'
          else c :: unescape_colons rest
      | [] => [c]
      end
  end.

(** what the network manager does to a field it prints in terse mode, as
    far as colons go: each colon gets a backslash in front *)
Definition escape_colons (s : jsstring) : jsstring :=
  flat_map (λ c, if c =? 58 then [92; 58] else [c]) s.

Fixpoint starts_with (s pre : jsstring) : bool :=
  match pre, s with
  | [], _ => true
  | p :: pre', c :: s' => (c =? p) && starts_with s' pre'
  | _ :: _, [] => false
  end.

(** [s.endsWith(suffix)] *)
Definition ends_with (s suffix : jsstring) : bool :=
  starts_with (rev s) (rev suffix).

(** a string in a condition: true unless it is empty *)
Definition truthy (s : jsstring) : bool :=
  match s with [] => false | _ => true end.

(** [`${n}`] for an integer *)
Definition number_to_string (n : Z) : jsstring :=
  js (DecimalString.NilZero.string_of_int (Z.to_int n)).

(** ** Commands *)

(** a child process that has run to its end: what it wrote and how it
    exited *)
Record Completed : Type := mkCompleted {
  stdout : jsstring;
  exited : Z;
  stderr_text : jsstring
}.

(** [new Error(`nmcli command failed with exit code ${exitCode}: ${errorOutput}`)] *)
Definition nmcli_failed (p : Completed) : JsError :=
  js "nmcli command failed with exit code " ++ number_to_string (exited p)
  ++ js ": " ++ stderr_text p.

(** ** Wifi networks *)

Record WifiNetwork : Type := mkWifiNetwork {
  wn_ssid : jsstring;
  wn_bssid : jsstring;
  wn_signal : float;
  wn_rate : option jsstring;
  wn_frequency : option jsstring;
  wn_channel : option float;
  wn_security : option jsstring;
  wn_active : bool
}.

(** the body of the loop of [parseWifiListOutput] for one line: the network
    to push, if any *)
Definition parseWifiListLine (line : jsstring) : option WifiNetwork :=
  if negb (truthy line) then None
  else
    let parts := split_unescaped None line in
    if (length parts <? 9)%nat then None
    else
      let ssid := parts !! 0%nat in
      let bssid := unescape_colons <$> parts !! 1%nat in
      let signal := parts !! 2%nat in
      let rate := parts !! 3%nat in
      let freq := parts !! 4%nat in
      let chan := parts !! 5%nat in
      let security := parts !! 6%nat in
      let active := parts !! 8%nat in
      match ssid, bssid with
      | Some ((_ :: _) as ssid), Some ((_ :: _) as bssid) =>
          Some (mkWifiNetwork ssid bssid
                  (match signal with
                   | Some ((_ :: _) as signal) => parseInt10 signal
                   | _ => 0%float
                   end)
                  rate freq
                  (match chan with
                   | Some ((_ :: _) as chan) => Some (parseInt10 chan)
                   | _ => None
                   end)
                  security
                  (bool_decide (active = Some (js "yes"))))
      | _, _ => None
      end.

Definition parseWifiListOutput (output : jsstring) : list WifiNetwork :=
  omap parseWifiListLine (split_char 10 (trim output)).

(** [listWifiNetworks], for the run of [nmcli dev wifi list] *)
Definition listWifiNetworks (proc : Completed) : JsError + list WifiNetwork :=
  if (exited proc =? 0)%Z then inr (parseWifiListOutput (stdout proc))
  else inl (nmcli_failed proc).

(** ** Ethernet devices *)

Inductive EthernetState : Type :=
| eth_connected | eth_disconnected | eth_unavailable.

Record EthernetDevice : Type := mkEthernetDevice {
  ed_device : jsstring;
  ed_state : EthernetState;
  ed_connection : option jsstring;
  ed_speed : option float
}.

(** [getEthernetSpeed(device)], for the text of [/sys/class/net/<device>/speed],
    [None] when reading it throws *)
Definition getEthernetSpeed (file : option jsstring) : option float :=
  match file with
  | None => None
  | Some text =>
      let speed := parseInt10 (trim text) in
      if (0 <? speed)%float then Some speed else None
  end.

(** the body of the loop of [listEthernetDevices] for one line *)
Definition ethernetLine (line : jsstring) : option EthernetDevice :=
  if negb (truthy line) then None
  else
    let parts := split_char 58 line in
    let device := parts !! 0%nat in
    let type := parts !! 1%nat in
    let state := parts !! 2%nat in
    let connection := parts !! 3%nat in
    match device with
    | Some ((_ :: _) as device) =>
        if bool_decide (type = Some (js "ethernet")) then
          let ethState :=
            if bool_decide (state = Some (js "connected")) then eth_connected
            else if bool_decide (state = Some (js "unavailable"))
                 then eth_unavailable
                 else eth_disconnected in
          Some (mkEthernetDevice device ethState connection None)
        else None
    | _ => None
    end.

(** [listEthernetDevices], for the run of [nmcli dev status] and the speed
    files of the devices *)
Definition listEthernetDevices (proc : Completed)
    (speed_file : jsstring → option jsstring)
    : JsError + list EthernetDevice :=
  if (exited proc =? 0)%Z then
    let devices := omap ethernetLine (split_char 10 (trim (stdout proc))) in
    inr (map (λ dev,
                match ed_state dev with
                | eth_connected =>
                    mkEthernetDevice (ed_device dev) (ed_state dev)
                      (ed_connection dev)
                      (getEthernetSpeed (speed_file (ed_device dev)))
                | _ => dev
                end) devices)
  else inl (nmcli_failed proc).

(** ** The active connection *)

(** the body of the loop of [parseWifiOutput] for one line *)
Definition parseWifiLine (line : jsstring)
    : option NetworkMonitor.NetworkStatus :=
  if negb (ends_with line (js ":yes")) then None
  else
    let parts := split_char 58 line in
    if (length parts <? 8)%nat then None
    else
      let ssid := parts !! 0%nat in
      let signal := parts !! 1%nat in
      let rate := parts !! 2%nat in
      let freq := parts !! 3%nat in
      let chan := parts !! 4%nat in
      let security := parts !! 5%nat in
      let device := parts !! 6%nat in
      match ssid, device with
      | Some ((_ :: _) as ssid), Some ((_ :: _) as device) =>
          Some (NetworkMonitor.mkNetworkStatus ssid NetworkMonitor.wifi device
                  (match signal with
                   | Some ((_ :: _) as signal) => Some (parseInt10 signal)
                   | _ => None
                   end)
                  rate freq
                  (match chan with
                   | Some ((_ :: _) as chan) => Some (parseInt10 chan)
                   | _ => None
                   end)
                  security)
      | _, _ => None
      end.

(** [parseWifiOutput]: the first line that gives a status *)
Definition parseWifiOutput (output : jsstring)
    : option NetworkMonitor.NetworkStatus :=
  List.hd_error (omap parseWifiLine (split_char 10 (trim output))).

Record Connection : Type := mkConnection {
  conn_name : jsstring;
  conn_type : jsstring;
  conn_device : jsstring
}.

(** the body of the loop of [parseConnectionOutput] for one line *)
Definition connectionLine (line : jsstring) : option Connection :=
  if negb (truthy line) then None
  else
    let parts := split_char 58 line in
    match parts !! 0%nat, parts !! 1%nat, parts !! 2%nat with
    | Some ((_ :: _) as name), Some ((_ :: _) as type),
      Some ((_ :: _) as device) => Some (mkConnection name type device)
    | _, _, _ => None
    end.

Definition parseConnectionOutput (output : jsstring) : list Connection :=
  omap connectionLine (split_char 10 (trim output)).

(** the loop at the end of [getActiveConnection]: the first connection that
    is not the loopback *)
Fixpoint first_connection (connections : list Connection)
    : option NetworkMonitor.NetworkStatus :=
  match connections with
  | [] => None
  | conn :: rest =>
      if bool_decide (conn_type conn = js "loopback") then first_connection rest
      else
        let type :=
          if bool_decide (conn_type conn = js "802-11-wireless")
          then NetworkMonitor.wifi
          else if bool_decide (conn_type conn = js "802-3-ethernet")
               then NetworkMonitor.ethernet
               else NetworkMonitor.other in
        Some (NetworkMonitor.mkNetworkStatus (conn_name conn) type
                (conn_device conn) None None None None None)
  end.

(** [getActiveConnection], for the run of [nmcli dev wifi] and, when it is
    needed, that of [nmcli connection show --active] *)
Definition getActiveConnection (wifiProc connProc : Completed)
    : JsError + option NetworkMonitor.NetworkStatus :=
  let wifiStatus :=
    if (exited wifiProc =? 0)%Z && truthy (trim (stdout wifiProc))
    then parseWifiOutput (stdout wifiProc) else None in
  match wifiStatus with
  | Some status => inr (Some status)
  | None =>
      if (exited connProc =? 0)%Z
      then inr (first_connection (parseConnectionOutput (stdout connProc)))
      else inl (nmcli_failed connProc)
  end.

(* ===================================================================== *)
(** * debounce.ts *)
(* ===================================================================== *)

(** [debounce(callback, wait)] as a machine: the variable [timeoutId] of the
    closure, and the timers it has set that have neither fired nor been
    cleared, each with the arguments its callback will pass on. *)
Module Debounce.
Section Debounce.
Context {Args : Type}.

Record State : Type := mkState {
  timeoutId : option nat;        (* [undefined] or the last timer set *)
  timers : gmap nat Args;        (* the timers that are pending *)
  next_timer : nat               (* the next timer the host hands out *)
}.

Inductive Event : Type :=
| Call (args : Args)             (* the debounced function is called *)
| Clear                          (* [clear] is called, by hand or on cleanup *)
| Fire (timer : nat).            (* the host runs a timer that is due *)

(** [debounce(callback, wait)], before any call *)
Definition init : State := mkState None ∅ 0.

(** [clearTimeout(id)]: nothing happens for [undefined] and for a timer that
    is not pending *)
Definition clearTimeout (id : option nat) (s : State) : State :=
  match id with
  | Some t => mkState (timeoutId s) (delete t (timers s)) (next_timer s)
  | None => s
  end.

Definition clear (s : State) : State := clearTimeout (timeoutId s) s.

Definition debounced (args : Args) (s : State) : State :=
  let s := match timeoutId s with Some _ => clear s | None => s end in
  mkState (Some (next_timer s)) (<[next_timer s := args]> (timers s))
    (S (next_timer s)).

(** a step, and the arguments [callback] is called with during it *)
Definition step (s : State) (ev : Event) : State * list Args :=
  match ev with
  | Call args => (debounced args s, [])
  | Clear => (clear s, [])
  | Fire t =>
      match timers s !! t with
      | Some args =>
          (mkState (timeoutId s) (delete t (timers s)) (next_timer s), [args])
      | None => (s, [])
      end
  end.

Fixpoint run (s : State) (evs : list Event) : State * list Args :=
  match evs with
  | [] => (s, [])
  | ev :: evs' =>
      let '(s1, out1) := step s ev in
      let '(s2, out2) := run s1 evs' in
      (s2, out1 ++ out2)
  end.

(** the events in which the host runs timers, and no call is made *)
Definition only_fires (evs : list Event) : Prop :=
  Forall (λ ev, match ev with Fire _ => True | _ => False end) evs.

(** every pending timer is the one [timeoutId] names *)
Definition latest_only (s : State) : Prop :=
  ∀ t a, timers s !! t = Some a → timeoutId s = Some t.

(** whether the host runs the timer [t] during [evs] *)
Definition runs_timer (t : nat) (evs : list Event) : bool :=
  existsb (λ ev, match ev with Fire t' => Nat.eqb t' t | _ => false end) evs.

End Debounce.
Arguments State : clear implicits.
Arguments Event : clear implicits.
End Debounce.

(* ===================================================================== *)
(** * apps.ts: launching an application *)
(* ===================================================================== *)

(** [CommandError] *)
Record CommandError : Type := mkCommandError {
  ce_command : list string;
  ce_exitCode : Z;
  ce_stderr : string
}.

(** [launchApp(name)], for the outcome [started] of [Command.start] on
    [astal-apps --launch name]: the error stream of the child is read only
    when it has exited with another code than 0. *)
Definition launchApp (name : string)
    (started : DaemonManager.PlatformError + DaemonManager.Process)
    : DaemonManager.Exit (CommandError + DaemonManager.PlatformError) unit :=
  let command := ["astal-apps"; "--launch"; name]%string in
  match started with
  | inl e => DaemonManager.Failure (inr e)
  | inr process =>
      match DaemonManager.exitCode process with
      | inl e => DaemonManager.Failure (inr e)
      | inr exit_code =>
          if (exit_code =? 0)%Z then DaemonManager.Success ()
          else
            match DaemonManager.stderr process with
            | (_, Some e) => DaemonManager.Failure (inr e)
            | (chunks, None) =>
                DaemonManager.Failure
                  (inl (mkCommandError command exit_code
                          (DaemonManager.runFold chunks)))
            end
      end
  end.

(* ===================================================================== *)
(** * Properties of the matcher *)
(* ===================================================================== *)

Section MatcherLemmas.
Context {R : Type}.
Implicit Types (p : N → bool) (k : option N → jsstring → option R).

(** What [class*] matched is a run of the class, and the rest of the pattern
    matched what is left. *)
Lemma star_loop_sound p k prev s r :
  star_loop p k prev s = Some r →
  ∃ w t prev', s = w ++ t ∧ forallb p w = true ∧ k prev' t = Some r.
Proof.
  revert prev. induction s as [|c s IH]; intros prev H; simpl in H.
  - exists [], [], prev. auto.
  - destruct (p c) eqn:Hc.
    + destruct (star_loop p k (Some c) s) as [r'|] eqn:Hs.
      * injection H as <-.
        destruct (IH _ Hs) as (w & t & prev' & -> & Hw & Hk).
        exists (c :: w), t, prev'. simpl. rewrite Hc, Hw. auto.
      * exists [], (c :: s), prev. auto.
    + exists [], (c :: s), prev. auto.
Qed.

Lemma plus_loop_sound p k prev s r :
  plus_loop p k prev s = Some r →
  ∃ w t prev', s = w ++ t ∧ run_of p w ∧ k prev' t = Some r.
Proof.
  destruct s as [|c s]; simpl; [done|].
  destruct (p c) eqn:Hc; [|done]. intros H.
  destruct (star_loop_sound _ _ _ _ _ H) as (w & t & prev' & -> & Hw & Hk).
  exists (c :: w), t, prev'. split; [done|]. split; [|done].
  split; [done|]. simpl. by rewrite Hc, Hw.
Qed.

(** A run of the class that cannot be made longer is what the greedy
    [class*] takes, when the rest of the pattern matches after it. *)
Lemma star_loop_greedy p k prev w t r :
  forallb p w = true → stops p t →
  (∀ prev', k prev' t = Some r) →
  star_loop p k prev (w ++ t) = Some r.
Proof.
  intros Hw Ht Hk. revert prev.
  induction w as [|c w IH]; intros prev; simpl.
  - destruct t as [|c t]; simpl; [done|]. simpl in Ht. by rewrite Ht.
  - simpl in Hw. apply andb_true_iff in Hw as [Hc Hw].
    by rewrite Hc, (IH Hw).
Qed.

Lemma plus_loop_greedy p k prev w t r :
  run_of p w → stops p t →
  (∀ prev', k prev' t = Some r) →
  plus_loop p k prev (w ++ t) = Some r.
Proof.
  intros [Hne Hw] Ht Hk. destruct w as [|c w]; [done|]. simpl in *.
  apply andb_true_iff in Hw as [Hc Hw]. rewrite Hc.
  by apply star_loop_greedy.
Qed.

End MatcherLemmas.

(** A literal piece of pattern matches itself. *)
Lemma run_lits_sound ml l pat opens caps prev s r :
  run ml (lits l ++ pat) opens caps prev s = Some r →
  ∃ t prev', s = l ++ t ∧ run ml pat opens caps prev' t = Some r.
Proof.
  revert prev s. induction l as [|c l IH]; intros prev s H; simpl in H.
  - by exists s, prev.
  - destruct s as [|x s]; [done|].
    destruct (x =? c) eqn:Hx; [|done]. apply N.eqb_eq in Hx as ->.
    destruct (IH _ _ H) as (t & prev' & -> & Hr). by exists t, prev'.
Qed.

Lemma run_lits_complete ml l pat opens caps prev t r :
  (∀ prev', run ml pat opens caps prev' t = Some r) →
  run ml (lits l ++ pat) opens caps prev (l ++ t) = Some r.
Proof.
  intros Hk. revert prev. induction l as [|c l IH]; intros prev; simpl.
  - apply Hk.
  - rewrite N.eqb_refl. apply IH.
Qed.

Lemma take_captured (w t : jsstring) :
  take (length (w ++ t) - length t) (w ++ t) = w.
Proof.
  rewrite length_app, Nat.add_sub. by rewrite take_app_length.
Qed.

(** A group around [class+] captures a run of the class. *)
Lemma run_group_sound ml p pat opens caps prev s r :
  run ml (Open :: Plus p :: Close :: pat) opens caps prev s = Some r →
  ∃ w t prev',
    s = w ++ t ∧ run_of p w ∧ run ml pat opens (w :: caps) prev' t = Some r.
Proof.
  simpl. intros H.
  destruct (plus_loop_sound _ _ _ _ _ H) as (w & t & prev' & -> & Hw & Hk).
  exists w, t, prev'. by rewrite take_captured in Hk.
Qed.

Lemma run_group_greedy ml p pat opens caps prev w t r :
  run_of p w → stops p t →
  (∀ prev', run ml pat opens (w :: caps) prev' t = Some r) →
  run ml (Open :: Plus p :: Close :: pat) opens caps prev (w ++ t) = Some r.
Proof.
  intros Hw Ht Hk. simpl. apply plus_loop_greedy; [done..|].
  intros prev'. by rewrite take_captured.
Qed.

(** A pattern that begins with [^], without the [m] flag, matches at the
    start of the input or nowhere. *)
Lemma search_anchored_later pat c s :
  search false (Bol :: pat) (Some c) s = None.
Proof.
  revert c. induction s as [|x s IH]; intros c; simpl; [done|]. apply IH.
Qed.

Lemma exec_anchored pat s :
  exec false (Bol :: pat) s = match_array s <$> run false pat [] [] None s.
Proof.
  unfold exec. destruct s as [|c s]; simpl.
  - by destruct (run false pat [] [] None []).
  - destruct (run false pat [] [] None (c :: s)); [done|].
    apply search_anchored_later.
Qed.

(** What [search] returns is the match array of a match at some position. *)
Lemma search_sound ml pat prev s mt :
  search ml pat prev s = Some mt →
  ∃ prev' s' r, run ml pat [] [] prev' s' = Some r ∧ mt = match_array s' r.
Proof.
  revert prev. induction s as [|c s IH]; intros prev; simpl.
  - destruct (run ml pat [] [] prev []) as [r|] eqn:Hr; [|done].
    intros [= <-]. by exists prev, [], r.
  - destruct (run ml pat [] [] prev (c :: s)) as [r|] eqn:Hr.
    + intros [= <-]. by exists prev, (c :: s), r.
    + apply IH.
Qed.

Lemma run_eol_sound opens caps prev s r :
  run false [Eol] opens caps prev s = Some r → s = [] ∧ r = (rev caps, []).
Proof. destruct s; simpl; [|done]. by intros [= <-]. Qed.

Lemma match_array_all s caps :
  match_array s (caps, []) = s :: caps.
Proof.
  unfold match_array. simpl. by rewrite Nat.sub_0_r, firstn_all.
Qed.

#[local] Arguments js : simpl never.
#[local] Arguments lits : simpl never.

(** Unfold one layer of the pattern in a hypothesis that says it matched. *)
Ltac matched H :=
  cbn [app] in H;
  lazymatch type of H with
  | exec false (Bol :: _) _ = Some _ =>
      let r := fresh "r" in
      rewrite exec_anchored in H;
      apply fmap_Some in H as (r & H & ->)
  | run _ (Open :: Plus _ :: Close :: _) _ _ _ _ = Some _ =>
      let w := fresh "w" in let t := fresh "t" in let Hw := fresh "Hw" in
      apply run_group_sound in H as (w & t & ? & -> & Hw & H)
  | run _ (lits _ ++ _) _ _ _ _ = Some _ =>
      let t := fresh "t" in
      apply run_lits_sound in H as (t & ? & -> & H)
  | run false [Eol] _ _ _ _ = Some _ =>
      apply run_eol_sound in H as [-> ->]
  end.

(** ** What each pattern of the network parser matches *)

Lemma re_connected_sound line mt :
  exec false re_connected line = Some mt →
  ∃ w, run_of word w ∧ line = w ++ js ": connected" ∧ mt = [line; w].
Proof.
  unfold re_connected. intros H. do 4 matched H.
  exists w. by rewrite match_array_all, app_nil_r.
Qed.

Lemma re_disconnected_sound line mt :
  exec false re_disconnected line = Some mt →
  ∃ w, run_of word w ∧ line = w ++ js ": disconnected" ∧ mt = [line; w].
Proof.
  unfold re_disconnected. intros H. do 4 matched H.
  exists w. by rewrite match_array_all, app_nil_r.
Qed.

Lemma re_using_sound line mt :
  exec false re_using line = Some mt →
  ∃ w s, run_of word w ∧ run_of dot s
    ∧ line = w ++ js ": using connection '" ++ s ++ js "'"
    ∧ mt = [line; w; s].
Proof.
  unfold re_using. intros H. do 6 matched H.
  exists w, w0. by rewrite match_array_all, app_nil_r.
Qed.

Lemma re_connectivity_sound line mt :
  exec false re_connectivity line = Some mt →
  ∃ w, run_of word w ∧ line = js "Connectivity is now '" ++ w ++ js "'"
    ∧ mt = [line; w].
Proof.
  unfold re_connectivity. intros H. do 5 matched H.
  exists w. by rewrite match_array_all, app_nil_r.
Qed.

(** A line the parser accepts is a line of the grammar, with any word for
    the level. *)
Lemma parseMonitorLine_sound line ev :
  parseMonitorLine line = Some ev →
  network_line_grammar (run_of word) line.
Proof.
  unfold parseMonitorLine, network_line_grammar.
  destruct (exec false re_connected line) eqn:H1.
  { apply re_connected_sound in H1 as (w & _ & -> & _). eauto. }
  destruct (exec false re_disconnected line) eqn:H2.
  { apply re_disconnected_sound in H2 as (w & _ & -> & _). eauto. }
  destruct (exec false re_using line) eqn:H3.
  { apply re_using_sound in H3 as (w & s & _ & _ & -> & _). eauto 6. }
  destruct (exec false re_connectivity line) eqn:H4; [|done].
  apply re_connectivity_sound in H4 as (w & Hw & -> & _). eauto 7.
Qed.

(** ** Comparing the ends of two texts *)

Lemma prefix_agree_app a b x y :
  a ++ x = b ++ y → prefix_agree a b = true.
Proof.
  revert b. induction a as [|c a IH]; intros [|d b]; simpl; try done.
  intros [= -> H]. rewrite N.eqb_refl. simpl. by apply IH.
Qed.

Lemma suffix_agree_app a b x y :
  x ++ a = y ++ b → suffix_agree a b = true.
Proof.
  intros H. apply (f_equal (@rev N)) in H. rewrite !rev_app_distr in H.
  by apply prefix_agree_app in H.
Qed.

(** Close a goal from an equation between two texts whose ends differ. *)
Ltac ends_differ H :=
  exfalso;
  first
    [ apply prefix_agree_app in H; vm_compute in H; discriminate H
    | apply suffix_agree_app in H; vm_compute in H; discriminate H
    | rewrite ?app_assoc in H;
      apply suffix_agree_app in H; vm_compute in H; discriminate H ].

Lemma not_spec_level_portal : ¬ spec_levels (js "portal").
Proof.
  unfold spec_levels. intros H.
  repeat (apply elem_of_cons in H as [H|H]; [by vm_compute in H|]).
  by apply elem_of_nil in H.
Qed.

(** C7, as the specification states it, fails: a line that reports a
    connectivity level other than full, limited and none, such as
    ["Connectivity is now 'portal'"], is a line of none of the four
    productions, and the parser returns an event for it. *)
Lemma parseMonitorLine_portal :
  ¬ network_line_grammar spec_levels (js "Connectivity is now 'portal'")
  ∧ parseMonitorLine (js "Connectivity is now 'portal'")
    = Some (mkMonitorEvent connectivity None None (Some (js "portal"))).
Proof.
  split; [|by vm_compute].
  intros [(d & H) | [(d & H) | [(d & s & H) | (l & Hl & H)]]].
  - change (js "Connectivity is now 'portal'")
      with ([] ++ js "Connectivity is now 'portal'") in H. ends_differ H.
  - change (js "Connectivity is now 'portal'")
      with ([] ++ js "Connectivity is now 'portal'") in H. ends_differ H.
  - change (js "Connectivity is now 'portal'")
      with (js "Connectivity is now '" ++ js "portal" ++ js "'") in H.
    rewrite !app_assoc in H. apply app_inv_tail in H.
    assert (58 ∈ js "Connectivity is now '" ++ js "portal") as Hin.
    { rewrite H, <- app_assoc. apply elem_of_app. right.
      apply elem_of_app. left. by vm_compute; left. }
    vm_compute in Hin. repeat (apply elem_of_cons in Hin as [Hin|Hin]; [done|]).
    by apply elem_of_nil in Hin.
  - change (js "Connectivity is now 'portal'")
      with (js "Connectivity is now '" ++ js "portal" ++ js "'") in H.
    apply app_inv_head in H. apply app_inv_tail in H. subst l.
    by apply not_spec_level_portal.
Qed.

(** C7 (amended): the parser maps the three lines of the specification to
    the events it gives for them, returns null for
    ["NetworkManager is running"], and returns null for every line that is a
    line of none of the four productions, the level of the fourth being any
    run of word characters. *)
Theorem parseMonitorLine_spec :
  parseMonitorLine (js "wlan0: connected")
  = Some (mkMonitorEvent connected (Some (js "wlan0")) None None)
  ∧ parseMonitorLine (js "wlan0: using connection 'My Network 5G'")
    = Some (mkMonitorEvent connecting (Some (js "wlan0"))
              (Some (js "My Network 5G")) None)
  ∧ parseMonitorLine (js "Connectivity is now 'limited'")
    = Some (mkMonitorEvent connectivity None None (Some (js "limited")))
  ∧ parseMonitorLine (js "NetworkManager is running") = None
  ∧ ∀ line,
      ¬ network_line_grammar (run_of word) line →
      parseMonitorLine line = None.
Proof.
  repeat split; try by vm_compute.
  intros line Hno. destruct (parseMonitorLine line) as [ev|] eqn:H; [|done].
  by apply parseMonitorLine_sound in H.
Qed.

Lemma parseMonitorLine_spec_witness :
  parseMonitorLine (js "NetworkManager is running") = None.
Proof.
  apply parseMonitorLine_spec.
  intros [(d & H) | [(d & H) | [(d & s & H) | (l & Hl & H)]]].
  - change (js "NetworkManager is running")
      with ([] ++ js "NetworkManager is running") in H. ends_differ H.
  - change (js "NetworkManager is running")
      with ([] ++ js "NetworkManager is running") in H. ends_differ H.
  - change (js "NetworkManager is running")
      with ([] ++ js "NetworkManager is running") in H. ends_differ H.
  - rewrite <- (app_nil_r (js "NetworkManager is running")) in H.
    ends_differ H.
Defined.

(** ** Device names with a character that is not a word character *)

Lemma not_in_text (c : N) (l : jsstring) :
  forallb (λ x, negb (x =? c)) l = true → c ∉ l.
Proof.
  induction l as [|x l IH]; simpl; intros H Hin.
  - by apply elem_of_nil in Hin.
  - apply andb_true_iff in H as [Hx H].
    apply elem_of_cons in Hin as [->|Hin]; [|by apply IH].
    by rewrite N.eqb_refl in Hx.
Qed.

Lemma run_without (p : N → bool) (c : N) (w : jsstring) :
  p c = false → forallb p w = true → c ∉ w.
Proof.
  intros Hc. induction w as [|x w IH]; simpl; intros H Hin.
  - by apply elem_of_nil in Hin.
  - apply andb_true_iff in H as [Hx H].
    apply elem_of_cons in Hin as [->|Hin]; [congruence|by apply IH].
Qed.

Lemma has_nonword_not_word device :
  has_nonword device → forallb word device = true → False.
Proof.
  unfold has_nonword. induction device as [|c d IH]; simpl; [done|].
  intros H1 H2. apply andb_true_iff in H2 as [Hc H2].
  apply orb_true_iff in H1 as [H1|H1]; [|by apply IH].
  by rewrite Hc in H1.
Qed.

(** Two ways to cut a text at a character [c], the first one at the first
    [c] of the text: the cuts are the same, or the second one comes later. *)
Lemma split_at_first (c : N) (x y x' y' : jsstring) :
  c ∉ x → x ++ c :: y = x' ++ c :: y' →
  (x = x' ∧ y = y') ∨ ∃ d, x' = x ++ c :: d ∧ y = d ++ c :: y'.
Proof.
  revert x'. induction x as [|a x IH]; intros x' Hc H.
  - destruct x' as [|b x']; simpl in H.
    + left. by injection H.
    + injection H as <- ->. right. by exists x'.
  - apply not_elem_of_cons in Hc as [Hne Hc].
    destruct x' as [|b x']; simpl in H.
    + by injection H as -> _.
    + injection H as <- H. destruct (IH _ Hc H) as [[-> ->]|(d & -> & ->)].
      * by left.
      * right. by exists d.
Qed.

(** The third pattern on a line of the third production: the device name
    of the line is a word, or it begins like such a line itself. *)
Lemma re_using_device device ssid mt :
  exec false re_using (device ++ js ": using connection '" ++ ssid ++ js "'")
  = Some mt →
  forallb word device = true ∨ begins_using device.
Proof.
  intros H. apply re_using_sound in H as (w & s & Hw & _ & H & _).
  change (js ": using connection '")
    with (58 :: js " using connection '") in *.
  symmetry in H. cbn [app] in H.
  apply split_at_first in H; [|by apply (run_without word), Hw].
  destruct H as [[-> _]|(d & -> & H)]; [left; apply Hw|].
  right. exists w. apply app_eq_app in H as (l & [[H1 H2]|[H1 H2]]).
  - destruct l as [|c l].
    + exists []. rewrite app_nil_r in H1. by subst d.
    + injection H2 as <- _. exfalso.
      assert (58 ∈ js " using connection '") as Hin.
      { rewrite H1. apply elem_of_app. right. by left. }
      by apply not_in_text in Hin.
  - exists l. by subst d.
Qed.


(** Close a goal [parseMonitorLine line = None] once each of the four
    patterns is shown not to match; [tac] gets the hypothesis that one
    matched. *)
Ltac no_pattern tac :=
  unfold parseMonitorLine;
  repeat lazymatch goal with
  | |- context [exec false ?re ?line] =>
      let H := fresh "H" in
      destruct (exec false re line) eqn:H; [exfalso; tac H|]
  end;
  try reflexivity.

Lemma connected_line_none device :
  has_nonword device → parseMonitorLine (device ++ js ": connected") = None.
Proof.
  intros Hd. no_pattern ltac:(fun H => idtac).
  - apply re_connected_sound in H as (w & Hw & H & _).
    apply app_inv_tail in H as ->. apply (has_nonword_not_word _ Hd), Hw.
  - apply re_disconnected_sound in H0 as (w & Hw & H' & _). ends_differ H'.
  - apply re_using_sound in H1 as (w & s & _ & _ & H' & _). ends_differ H'.
  - apply re_connectivity_sound in H2 as (w & _ & H' & _). ends_differ H'.
Qed.

Lemma disconnected_line_none device :
  has_nonword device → parseMonitorLine (device ++ js ": disconnected") = None.
Proof.
  intros Hd. no_pattern ltac:(fun H => idtac).
  - apply re_connected_sound in H as (w & Hw & H' & _). ends_differ H'.
  - apply re_disconnected_sound in H0 as (w & Hw & H' & _).
    apply app_inv_tail in H' as ->. apply (has_nonword_not_word _ Hd), Hw.
  - apply re_using_sound in H1 as (w & s & _ & _ & H' & _). ends_differ H'.
  - apply re_connectivity_sound in H2 as (w & _ & H' & _). ends_differ H'.
Qed.

Lemma using_line_none device ssid :
  has_nonword device → ¬ begins_using device →
  parseMonitorLine (device ++ js ": using connection '" ++ ssid ++ js "'")
  = None.
Proof.
  intros Hd Hb. no_pattern ltac:(fun H => idtac).
  - apply re_connected_sound in H as (w & Hw & H' & _). ends_differ H'.
  - apply re_disconnected_sound in H0 as (w & Hw & H' & _). ends_differ H'.
  - apply re_using_device in H1 as [Hw|Hw]; [|done].
    by apply (has_nonword_not_word _ Hd).
  - apply re_connectivity_sound in H2 as (w & Hw & H' & _).
    assert (58 ∈ js "Connectivity is now '" ++ w ++ js "'") as Hin.
    { rewrite <- H'. apply elem_of_app. right. apply elem_of_app. left.
      by left. }
    apply elem_of_app in Hin as [Hin|Hin]; [by apply not_in_text in Hin|].
    apply elem_of_app in Hin as [Hin|Hin]; [|by apply not_in_text in Hin].
    by apply (run_without word) in Hin; [|done|apply Hw].
Qed.



(** ** What the pattern of the audio parser matches *)

Lemma re_event_sound line mt :
  exec false re_event line = Some mt →
  ∃ a o i, run_of word a ∧ run_of word_or_hyphen o ∧ run_of digit i
    ∧ line = js "Event '" ++ a ++ js "' on " ++ o ++ js " #" ++ i
    ∧ mt = [line; a; o; i].
Proof.
  unfold re_event. intros H. do 8 matched H.
  exists w, w0, w1. by rewrite match_array_all, app_nil_r.
Qed.

Lemma stops_at p c (t : jsstring) : p c = false → stops p (c :: t).
Proof. done. Qed.

Lemma re_event_complete a o i :
  run_of word a → run_of word_or_hyphen o → run_of digit i →
  let line := js "Event '" ++ a ++ js "' on " ++ o ++ js " #" ++ i in
  exec false re_event line = Some [line; a; o; i].
Proof.
  intros Ha Ho Hi line. unfold re_event.
  change ([Bol] ++ ?p) with (Bol :: p).
  rewrite exec_anchored. apply fmap_Some. exists ([a; o; i], []).
  split; [|by rewrite match_array_all]. subst line.
  apply run_lits_complete. intros p1. cbn [app].
  apply run_group_greedy; [done|by apply stops_at|]. intros p2.
  apply run_lits_complete. intros p3. cbn [app].
  apply run_group_greedy; [done|by apply stops_at|]. intros p4.
  apply run_lits_complete. intros p5.
  pose proof (run_group_greedy false digit [Eol] [] [o; a] p5 i []
                ([a; o; i], []) Hi I) as H.
  rewrite app_nil_r in H. by apply H.
Qed.

(** The parser returns an event for exactly the lines
    ["Event '<action>' on <objectType> #<index>"] with a run of word
    characters for the action, a run of word characters and hyphens for the
    object type and a run of digits for the index, and the event holds these
    three. *)
Lemma parseSubscribeLine_Some line ev :
  parseSubscribeLine line = Some ev ↔
  ∃ a o i, run_of word a ∧ run_of word_or_hyphen o ∧ run_of digit i
    ∧ line = js "Event '" ++ a ++ js "' on " ++ o ++ js " #" ++ i
    ∧ ev = mkAudioEvent a o (parseInt10 i).
Proof.
  unfold parseSubscribeLine. split.
  - destruct (exec false re_event line) as [mt|] eqn:H; [|done].
    apply re_event_sound in H as (a & o & i & Ha & Ho & Hi & Hl & ->).
    simpl. destruct a; [by destruct Ha|]. destruct o; [by destruct Ho|].
    destruct i; [by destruct Hi|]. intros [= <-]. eauto 10.
  - intros (a & o & i & Ha & Ho & Hi & -> & ->).
    rewrite re_event_complete by done. simpl.
    destruct a; [by destruct Ha|]. destruct o; [by destruct Ho|].
    destruct i; [by destruct Hi|]. done.
Qed.

(** C8, as the specification states it, fails: the parser does not look the
    action and the object type up in the two lists, and returns an event for
    ["Event 'foo' on bar #1"]. *)
Lemma parseSubscribeLine_unlisted :
  ¬ audio_line_grammar spec_actions spec_objects (js "Event 'foo' on bar #1")
  ∧ parseSubscribeLine (js "Event 'foo' on bar #1")
    = Some (mkAudioEvent (js "foo") (js "bar") 1%float).
Proof.
  split; [|by vm_compute].
  intros (a & o & i & Ha & _ & _ & H).
  rewrite <- (app_nil_r (js "Event 'foo' on bar #1")) in H.
  rewrite (app_assoc (js "Event '")) in H.
  unfold spec_actions in Ha.
  repeat (apply elem_of_cons in Ha as [->|Ha]; [ends_differ H|]).
  by apply elem_of_nil in Ha.
Qed.

(** C8 (amended): the parser returns an event exactly for the lines
    ["Event '<action>' on <objectType> #<index>"] where the action is a run
    of word characters, the object type a run of word characters and
    hyphens, and the index a run of digits; the action and the object type
    are not held against the lists of the specification.
    ["Event 'change' on sink #56"] gives the event change, sink, 56, and
    ["Event 'change' on sink"] gives null. *)
Theorem parseSubscribeLine_spec :
  (∀ line,
     is_Some (parseSubscribeLine line) ↔
     audio_line_grammar (run_of word) (run_of word_or_hyphen) line)
  ∧ parseSubscribeLine (js "Event 'change' on sink #56")
    = Some (mkAudioEvent (js "change") (js "sink") 56%float)
  ∧ parseSubscribeLine (js "Event 'change' on sink") = None.
Proof.
  split; [|split; by vm_compute].
  intros line. unfold audio_line_grammar. split.
  - intros [ev H]. apply parseSubscribeLine_Some in H.
    destruct H as (a & o & i & Ha & Ho & Hi & -> & _). eauto 10.
  - intros (a & o & i & Ha & Ho & Hi & ->).
    exists (mkAudioEvent a o (parseInt10 i)).
    apply parseSubscribeLine_Some. eauto 10.
Qed.

Lemma parseSubscribeLine_spec_witness :
  is_Some (parseSubscribeLine (js "Event 'new' on sink-input #100")).
Proof.
  apply (proj1 parseSubscribeLine_spec).
  exists (js "new"), (js "sink-input"), (js "100").
  repeat split; by vm_compute.
Defined.

(** ** The fast path of the wifi signal *)

(** The group of the pattern of [/proc/net/wireless] captures a run of
    digits. *)
Lemma wireless_regex_capture device regex text mt :
  wireless_regex device = Some regex →
  exec true regex text = Some mt →
  ∃ whole ds, mt = [whole; ds] ∧ run_of digit ds.
Proof.
  unfold wireless_regex, device_pattern.
  destruct (forallb _ device); [|done]. intros [= <-] H.
  apply search_sound in H as (prev & s & r & H & ->).
  cbn [app run] in H. destruct (at_bol true prev); [|done].
  apply star_loop_sound in H as (w1 & t1 & p1 & -> & _ & H).
  apply run_lits_sound in H as (t2 & p2 & -> & H).
  change (run true (Lit ?c :: ?p)) with (run true (lits [c] ++ p)) in H.
  apply run_lits_sound in H as (t3 & p3 & -> & H).
  cbn [app run] in H.
  apply plus_loop_sound in H as (w4 & t4 & p4 & -> & _ & H).
  apply plus_loop_sound in H as (w5 & t5 & p5 & -> & _ & H).
  apply plus_loop_sound in H as (w6 & t6 & p6 & -> & _ & H).
  apply (run_group_sound true digit (lits (js "."))) in H
    as (ds & t7 & p7 & -> & Hds & H).
  rewrite <- (app_nil_r (lits (js "."))) in H.
  apply run_lits_sound in H as (t8 & p8 & -> & H).
  simpl in H. injection H as <-. unfold match_array. simpl. eauto.
Qed.

Lemma digit_not_space c : digit c = true → space c = false.
Proof.
  unfold digit, space, between. intros H.
  apply andb_true_iff in H as [H1 H2].
  apply N.leb_le in H1. apply N.leb_le in H2.
  repeat (apply orb_false_iff; split);
    try (apply N.eqb_neq; lia);
    apply andb_false_iff; (left; apply N.leb_gt; lia)
                          || (right; apply N.leb_gt; lia).
Qed.

Lemma digit_cases c :
  digit c = true →
  c ∈ [48; 49; 50; 51; 52; 53; 54; 55; 56; 57].
Proof.
  unfold digit, between. intros H.
  apply andb_true_iff in H as [H1 H2].
  apply N.leb_le in H1. apply N.leb_le in H2.
  assert (c = 48 ∨ c = 49 ∨ c = 50 ∨ c = 51 ∨ c = 52 ∨ c = 53 ∨ c = 54
          ∨ c = 55 ∨ c = 56 ∨ c = 57) as Hc by lia.
  rewrite !elem_of_cons. tauto.
Qed.

Lemma take_while_all {A} (p : A → bool) (l : list A) :
  forallb p l = true → take_while p l = l.
Proof.
  induction l as [|x l IH]; simpl; [done|]. intros H.
  apply andb_true_iff in H as [-> H]. by rewrite IH.
Qed.

(** [parseInt] of a run of digits is the number the digits write. *)
Lemma parseInt10_digits ds :
  run_of digit ds → parseInt10 ds = Z2float (digits_value ds).
Proof.
  intros [Hne Hds]. destruct ds as [|c ds]; [done|].
  pose proof Hds as Hall. simpl in Hds.
  apply andb_true_iff in Hds as [Hc Hds].
  unfold parseInt10. cbn [drop_while]. rewrite (digit_not_space c Hc).
  apply take_while_all in Hall.
  apply digit_cases in Hc.
  repeat (apply elem_of_cons in Hc as [->|Hc]; [by rewrite Hall|]).
  by apply elem_of_nil in Hc.
Qed.

(** On the scale from 0 to 70 the binary64 computation
    [Math.round((q / 70) * 100)] gives the integer nearest to [100 q / 70]. *)
Lemma round_quality_table :
  Forall (λ q, Math_round (Z2float q / 70 * 100)%float
               = Z2float (percent_of_quality q))
    (seqZ 0 71).
Proof.
  let l := eval vm_compute in (seqZ 0 71) in change (seqZ 0 71) with l.
  repeat (constructor; [by vm_compute|]). constructor.
Qed.

Lemma round_quality q :
  (0 ≤ q ≤ 70)%Z →
  Math_round (Z2float q / 70 * 100)%float = Z2float (percent_of_quality q).
Proof.
  intros Hq. pose proof round_quality_table as H.
  rewrite Forall_forall in H. apply H. apply elem_of_seqZ. lia.
Qed.



(* ===================================================================== *)
(** * Properties of the supervisor *)
(* ===================================================================== *)

Section Supervisor.
Import DaemonManager.

(** [set] on a registered name stores an entry made of the new definition
    and the cell of the old entry, and nothing else of the old entry. *)
Lemma set_registered w def existing :
  daemons w !! def_name def = Some existing →
  set def w
  = (inr (),
     mkWorld (<[def_name def :=
                  mkDaemon (def_name def) (def_command def)
                    (state existing) None]> (daemons w))
       (refs w) (fibers w)).
Proof.
  intros H. unfold set, bind, MutableHashMap_get. simpl. by rewrite H.
Qed.

(** C1 fails on the code: [set] on a daemon that was started keeps the cell
    of its state, which still reads running, but stores the entry without
    the fiber that [start] recorded. *)
Lemma set_drops_fiber :
  let before := started_world in
  let after := (set (mkDaemonDef "test-daemon" ("sleep", ["20"])) before).2 in
  before.(daemons) !! "test-daemon"
  = Some (mkDaemon "test-daemon" ("sleep", ["10"]) 0 (Some 0%nat))
  ∧ after.(daemons) !! "test-daemon"
    = Some (mkDaemon "test-daemon" ("sleep", ["20"]) 0 None)
  ∧ after.(refs) !!! 0%nat = running
  ∧ after.(fibers) = [mkFiber (mkDaemon "test-daemon" ("sleep", ["10"]) 0 None)
                        false].
Proof. by vm_compute. Qed.

(** C3: on a name that is not registered, [start] and [stop] fail with
    [DaemonNotFoundError] for that name and leave the service as it was. *)
Theorem start_stop_unknown w n :
  daemons w !! n = None →
  start n w = (inl (mkDaemonNotFoundError n), w)
  ∧ stop n w = (inl (mkDaemonNotFoundError n), w).
Proof.
  intros H. unfold start, stop, bind, MutableHashMap_get. simpl.
  by rewrite H.
Qed.

Lemma start_stop_unknown_witness :
  start "unknown-daemon" started_world
  = (inl (mkDaemonNotFoundError "unknown-daemon"), started_world)
  ∧ stop "unknown-daemon" started_world
    = (inl (mkDaemonNotFoundError "unknown-daemon"), started_world).
Proof.
  apply (start_stop_unknown started_world "unknown-daemon").
  by vm_compute.
Defined.

(** [start] on a registered daemon whose state reads running returns at
    once. *)
Lemma start_running w n d :
  daemons w !! n = Some d →
  refs w !!! state d = running →
  start n w = (inr (), w).
Proof.
  intros Hd Hr.
  unfold start, bind, MutableHashMap_get, SubscriptionRef_get. simpl.
  rewrite Hd. simpl. rewrite Hr. by destruct (decide (running = running)).
Qed.

(** C4: [start] on a registered daemon whose state reads running succeeds
    and changes nothing: no fiber is forked, so no child is spawned, and the
    entry keeps the handle it has. *)
Theorem start_running_noop w n d :
  daemons w !! n = Some d →
  refs w !!! state d = running →
  start n w = (inr (), w)
  ∧ fibers (start n w).2 = fibers w
  ∧ (start n w).2.(daemons) !! n = Some d.
Proof.
  intros Hd Hr. by rewrite (start_running w n d Hd Hr).
Qed.

Lemma start_running_noop_witness :
  start "test-daemon" started_world = (inr (), started_world)
  ∧ fibers (start "test-daemon" started_world).2 = fibers started_world
  ∧ (start "test-daemon" started_world).2.(daemons) !! "test-daemon"
    = Some (mkDaemon "test-daemon" ("sleep", ["10"]) 0 (Some 0%nat)).
Proof.
  apply (start_running_noop started_world "test-daemon"); by vm_compute.
Defined.

(** [start] on a registered daemon that is not running forks a fiber for
    the entry, writes running to its cell and records the fiber. *)
Lemma start_not_running w n d :
  daemons w !! n = Some d →
  refs w !!! state d ≠ running →
  start n w
  = (inr (),
     mkWorld (<[n := mkDaemon (name d) (command d) (state d)
                      (Some (length (fibers w)))]> (daemons w))
       (<[state d := running]> (refs w))
       (fibers w ++ [mkFiber d false])).
Proof.
  intros Hd Hr. unfold start, bind, MutableHashMap_get, SubscriptionRef_get.
  simpl. rewrite Hd. simpl.
  by destruct (decide (refs w !!! state d = running)).
Qed.

(** [start] twice in a row is [start] once, for an entry whose cell is in
    the store. *)
Lemma start_start w n d :
  daemons w !! n = Some d →
  (state d < length (refs w))%nat →
  start n (start n w).2 = (inr (), (start n w).2).
Proof.
  intros Hd Hlt.
  destruct (decide (refs w !!! state d = running)) as [Hr|Hr].
  - pose proof (start_running w n d Hd Hr) as E. by rewrite !E.
  - rewrite (start_not_running w n d Hd Hr).
    eapply start_running; simpl.
    + by rewrite lookup_insert_eq.
    + simpl. by rewrite list_lookup_total_insert_eq.
Qed.

(** C5: [stop] on a registered daemon whose entry has no fiber succeeds and
    changes nothing. *)
Theorem stop_without_fiber w n d :
  daemons w !! n = Some d →
  fiber d = None →
  stop n w = (inr (), w).
Proof.
  intros Hd Hf. unfold stop, bind, MutableHashMap_get. simpl.
  rewrite Hd. simpl. by rewrite Hf.
Qed.

Lemma stop_without_fiber_witness :
  stop "test-daemon" (set test_daemon empty).2
  = (inr (), (set test_daemon empty).2).
Proof.
  apply (stop_without_fiber _ "test-daemon"
           (mkDaemon "test-daemon" ("sleep", ["10"]) 0 None));
    by vm_compute.
Defined.



End Supervisor.

(* ===================================================================== *)
(** * Properties of the monitors *)
(* ===================================================================== *)

Section Network.
Import NetworkMonitor.
Variable options : NetworkMonitorOptions.

(** Handling lines does not touch the flag, starts no child and schedules
    no restart. *)
Lemma network_handle_lines pid lines s :
  stopped (handle_lines options pid lines s).1 = stopped s
  ∧ ∀ a, a ∈ (handle_lines options pid lines s).2 →
         is_spawn a = false ∧ is_schedule a = false.
Proof.
  revert s. induction lines as [|line rest IH]; intros s; simpl.
  - split; [done|]. intros a Ha. by apply elem_of_nil in Ha.
  - destruct (parseMonitorLine line) as [ev|]; [|apply IH].
    destruct (ev_type ev); try apply IH.
    + destruct (ev_device ev) as [[|c dev]|]; try apply IH.
      simpl. split; [done|]. intros a Ha.
      apply list_elem_of_singleton in Ha as ->. done.
    + specialize (IH (set_currentDevice None s)).
      destruct (handle_lines options pid rest (set_currentDevice None s))
        as [s' acts]. simpl in *. destruct IH as [IH1 IH2].
      split; [done|]. intros a Ha. apply elem_of_app in Ha as [Ha|Ha].
      * unfold call in Ha. destruct (onDisconnect options).
        -- by apply list_elem_of_singleton in Ha as ->.
        -- by apply elem_of_nil in Ha.
      * by apply IH2.
Qed.

(** Once the flag is set, a step keeps it set, starts no child and
    schedules no restart, and does nothing at all on an event that comes
    from a child. *)
Lemma network_step_stopped s ev :
  stopped s = true →
  stopped (step options s ev).1 = true
  ∧ (∀ a, a ∈ (step options s ev).2 →
          is_spawn a = false ∧ is_schedule a = false)
  ∧ (from_child ev = true → (step options s ev).2 = []).
Proof.
  intros Hs.
  assert (∀ (acts : list Action),
            Forall (λ a, is_spawn a = false ∧ is_schedule a = false) acts →
            ∀ a, a ∈ acts → is_spawn a = false ∧ is_schedule a = false)
    as Hall by (intros acts H a Ha; by apply (proj1 (Forall_forall _ _) H)).
  destruct ev as [|r piped| |piped|pid text|pid err|pid|pid r|timer|signal];
    simpl.
  - (* Stop *)
    unfold stop. simpl.
    destruct (signalInterval s), (proc s); simpl;
      (split; [done|split; [|done]]); apply Hall; by repeat constructor.
  - (* InitQueryDone *)
    destruct (init_pending s); simpl.
    2:{ split; [done|split; [|done]]. intros a Ha. by apply elem_of_nil in Ha. }
    unfold startMonitor, startSignalPolling.
    destruct r as [[status|]|err]; simpl; rewrite Hs; simpl;
      (split; [done|split; [|done]]); apply Hall;
      unfold call; repeat case_match; by repeat constructor.
  - (* ChildExit *)
    rewrite Hs. simpl. split; [done|split; [|done]].
    intros a Ha. by apply elem_of_nil in Ha.
  - (* RestartTimer *)
    destruct (restarts s); simpl; [|unfold startMonitor; simpl; rewrite Hs];
      simpl; (split; [done|split; [|done]]);
      intros a Ha; by apply elem_of_nil in Ha.
  - (* Chunk *)
    destruct (loops s !! pid) as [[buf [|k|]]|]; simpl; rewrite ?Hs; simpl;
      (split; [done|split; [|done]]);
      intros a Ha; by apply elem_of_nil in Ha.
  - (* StreamError *)
    destruct (loops s !! pid) as [[buf [|k|]]|]; simpl; rewrite ?Hs; simpl;
      (split; [done|split; [|done]]);
      intros a Ha; by apply elem_of_nil in Ha.
  - (* StreamEnd *)
    destruct (loops s !! pid) as [[buf [|k|]]|]; simpl;
      (split; [done|split; [|done]]);
      intros a Ha; by apply elem_of_nil in Ha.
  - (* QueryDone *)
    destruct (loops s !! pid) as [[buf [|rest|]]|]; simpl;
      try (split; [done|split; [|done]];
           intros a Ha; by apply elem_of_nil in Ha).
    pose proof (network_handle_lines pid rest s) as [H1 H2].
    destruct (handle_lines options pid rest s) as [s' acts]. simpl in *.
    split; [congruence|split; [|done]].
    intros a Ha. apply elem_of_app in Ha as [Ha|Ha]; [|by apply H2].
    revert a Ha. apply Hall.
    destruct r as [[status|]|err]; unfold call; repeat case_match;
      by repeat constructor.
  - (* Tick *)
    destruct (intervals s !! timer) as [[|]|]; rewrite ?Hs; simpl;
      (split; [done|split; [|done]]);
      intros a Ha; by apply elem_of_nil in Ha.
  - (* SignalRead *)
    destruct (polls s); simpl; (split; [done|split; [|done]]); apply Hall;
      [by constructor|].
    destruct signal; unfold call; repeat case_match; by repeat constructor.
Qed.

Lemma network_run_stopped s evs :
  stopped s = true →
  stopped (run options s evs).1 = true ∧ quiet (run options s evs).2.
Proof.
  revert s. induction evs as [|ev evs IH]; intros s Hs; simpl.
  - split; [done|]. constructor.
  - destruct (network_step_stopped s ev Hs) as (H1 & H2 & H3).
    destruct (step options s ev) as [s1 acts]. simpl in *.
    destruct (IH s1 H1) as [H4 H5].
    destruct (run options s1 evs) as [s2 log]. simpl in *.
    split; [done|]. by constructor.
Qed.

Lemma network_stop_sets_flag s : stopped (step options s Stop).1 = true.
Proof. simpl. unfold stop. by destruct (signalInterval _). Qed.

End Network.

Section Audio.
Import AudioMonitor.
Variable options : AudioMonitorOptions.

Lemma audio_handle_lines pid lines s :
  stopped (handle_lines pid lines s).1 = stopped s
  ∧ ∀ a, a ∈ (handle_lines pid lines s).2 →
         is_spawn a = false ∧ is_schedule a = false.
Proof.
  revert s. induction lines as [|line rest IH]; intros s; simpl.
  - split; [done|]. intros a Ha. by apply elem_of_nil in Ha.
  - destruct (parseSubscribeLine line) as [ev|]; [|apply IH].
    repeat case_decide; try apply IH; simpl;
      (split; [done|]); intros a Ha;
      by apply list_elem_of_singleton in Ha as ->.
Qed.

Lemma audio_step_stopped s ev :
  stopped s = true →
  stopped (step options s ev).1 = true
  ∧ (∀ a, a ∈ (step options s ev).2 →
          is_spawn a = false ∧ is_schedule a = false)
  ∧ (from_child ev = true → (step options s ev).2 = []).
Proof.
  intros Hs.
  assert (∀ (acts : list Action),
            Forall (λ a, is_spawn a = false ∧ is_schedule a = false) acts →
            ∀ a, a ∈ acts → is_spawn a = false ∧ is_schedule a = false)
    as Hall by (intros acts H a Ha; by apply (proj1 (Forall_forall _ _) H)).
  destruct ev as [|r piped| |piped|pid text|pid err|pid|pid r|pid r]; simpl.
  - (* Stop *)
    unfold stop. simpl.
    destruct (proc s); simpl;
      (split; [done|split; [|done]]); apply Hall; by repeat constructor.
  - (* InitQueryDone *)
    destruct (init_pending s); simpl.
    2:{ split; [done|split; [|done]]. intros a Ha. by apply elem_of_nil in Ha. }
    unfold startMonitor.
    destruct r as [status|err]; simpl; rewrite Hs; simpl;
      (split; [done|split; [|done]]); apply Hall;
      unfold call; repeat case_match; by repeat constructor.
  - (* ChildExit *)
    rewrite Hs. simpl. split; [done|split; [|done]].
    intros a Ha. by apply elem_of_nil in Ha.
  - (* RestartTimer *)
    destruct (restarts s); simpl; [|unfold startMonitor; simpl; rewrite Hs];
      simpl; (split; [done|split; [|done]]);
      intros a Ha; by apply elem_of_nil in Ha.
  - (* Chunk *)
    destruct (loops s !! pid) as [[buf [|k|]]|]; simpl; rewrite ?Hs; simpl;
      (split; [done|split; [|done]]);
      intros a Ha; by apply elem_of_nil in Ha.
  - (* StreamError *)
    destruct (loops s !! pid) as [[buf [|k|]]|]; simpl; rewrite ?Hs; simpl;
      (split; [done|split; [|done]]);
      intros a Ha; by apply elem_of_nil in Ha.
  - (* StreamEnd *)
    destruct (loops s !! pid) as [[buf [|k|]]|]; simpl;
      (split; [done|split; [|done]]);
      intros a Ha; by apply elem_of_nil in Ha.
  - (* VolumeDone *)
    destruct (loops s !! pid) as [[buf [|[rest|rest]|]]|]; simpl;
      try (split; [done|split; [|done]];
           intros a Ha; by apply elem_of_nil in Ha).
    pose proof (audio_handle_lines pid rest s) as [H1 H2].
    destruct (handle_lines pid rest s) as [s' acts]. simpl in *.
    split; [congruence|split; [|done]].
    intros a Ha. apply elem_of_app in Ha as [Ha|Ha]; [|by apply H2].
    revert a Ha. apply Hall.
    destruct r as [status|err]; unfold call; repeat case_match;
      by repeat constructor.
  - (* SinkDone *)
    destruct (loops s !! pid) as [[buf [|[rest|rest]|]]|]; simpl;
      try (split; [done|split; [|done]];
           intros a Ha; by apply elem_of_nil in Ha).
    destruct r as [sinkName|err]; simpl.
    + split; [done|split; [|done]]. apply Hall.
      unfold call; repeat case_match; by repeat constructor.
    + pose proof (audio_handle_lines pid rest s) as [H1 H2].
      destruct (handle_lines pid rest s) as [s' acts]. simpl in *.
      split; [congruence|split; [|done]].
      intros a Ha. apply elem_of_app in Ha as [Ha|Ha]; [|by apply H2].
      revert a Ha. apply Hall.
      unfold call; repeat case_match; by repeat constructor.
Qed.

Lemma audio_run_stopped s evs :
  stopped s = true →
  stopped (run options s evs).1 = true ∧ quiet (run options s evs).2.
Proof.
  revert s. induction evs as [|ev evs IH]; intros s Hs; simpl.
  - split; [done|]. constructor.
  - destruct (audio_step_stopped s ev Hs) as (H1 & H2 & H3).
    destruct (step options s ev) as [s1 acts]. simpl in *.
    destruct (IH s1 H1) as [H4 H5].
    destruct (run options s1 evs) as [s2 log]. simpl in *.
    split; [done|]. by constructor.
Qed.

Lemma audio_stop_sets_flag s : stopped (step options s Stop).1 = true.
Proof. done. Qed.

End Audio.

(** C6, as the specification states it, fails: the handling of a line that
    is suspended at its query when the stop function is called goes on when
    the query is answered, without looking at the flag.  Here the read loop
    has got the chunk ["wlan0: connected\nwlan0: disconnected\n"] and waits
    for [getActiveConnection]; the monitor is stopped; the answer comes, and
    [onConnect] and then [onDisconnect] are called. *)
Lemma network_callbacks_after_stop :
  let options := NetworkMonitor.all_callbacks in
  let chunk := js "wlan0: connected" ++ [10] ++ js "wlan0: disconnected"
               ++ [10] in
  let s := (NetworkMonitor.run options NetworkMonitor.create.1
              [NetworkMonitor.InitQueryDone (NetworkMonitor.Resolved None) true;
               NetworkMonitor.Chunk 0 chunk;
               NetworkMonitor.Stop]).1 in
  let resumed := NetworkMonitor.QueryDone 0
                   (NetworkMonitor.Resolved
                      (Some NetworkMonitor.sample_status)) in
  NetworkMonitor.stopped s = true
  ∧ (NetworkMonitor.step options s resumed).2
    = [NetworkMonitor.OnConnect NetworkMonitor.sample_status;
       NetworkMonitor.OnDisconnect]
  ∧ ¬ NetworkMonitor.silent (NetworkMonitor.run options s [resumed]).2.
Proof.
  split; [by vm_compute|]. split; [by vm_compute|].
  intros H. apply Forall_cons in H as [H _].
  destruct (H NetworkMonitor.OnDisconnect) as [_ Hc]; [|done].
  vm_compute. right. left.
Qed.

(** C6 (amended): once the stop function of a monitor, network or audio, has
    been called, whatever happens next the monitor starts no child and
    schedules no restart, and the exit of a child, a restart timer that was
    pending, a chunk, a stream error or the end of a stream makes it do
    nothing at all: it calls no callback.  (The lines of a chunk whose
    handling was under way at the stop are not covered.) *)
Theorem monitors_after_stop :
  (∀ options s evs,
     let stopped_state := (NetworkMonitor.step options s NetworkMonitor.Stop).1 in
     NetworkMonitor.stopped (NetworkMonitor.run options stopped_state evs).1
     = true
     ∧ NetworkMonitor.quiet (NetworkMonitor.run options stopped_state evs).2)
  ∧ (∀ options s evs,
       let stopped_state := (AudioMonitor.step options s AudioMonitor.Stop).1 in
       AudioMonitor.stopped (AudioMonitor.run options stopped_state evs).1
       = true
       ∧ AudioMonitor.quiet (AudioMonitor.run options stopped_state evs).2).
Proof.
  split; intros options s evs stopped_state.
  - apply network_run_stopped, network_stop_sets_flag.
  - apply audio_run_stopped, audio_stop_sets_flag.
Qed.

(* ===================================================================== *)
(** * Properties of truncate *)
(* ===================================================================== *)

Lemma slice_from_start (s : jsstring) (n : Z) :
  (0 ≤ n)%Z → slice s 0 n = take (Z.to_nat n) s.
Proof.
  intros Hn. unfold slice. simpl.
  destruct (Z.ltb_spec n 0) as [?|_]; [lia|].
  rewrite (Z.min_l 0) by lia. simpl. rewrite drop_0, Z.sub_0_r.
  destruct (decide (n ≤ Z.of_nat (length s))%Z).
  - by rewrite Z.min_l, Z.max_l by lia.
  - rewrite Z.min_r, Z.max_l by lia. rewrite Nat2Z.id.
    by rewrite !take_ge by lia.
Qed.

Lemma truncate_fits (str : jsstring) (maxLength : Z) :
  (0 ≤ maxLength)%Z →
  (Z.of_nat (length (truncate str maxLength)) ≤ maxLength)%Z.
Proof.
  intros Hm. unfold truncate.
  destruct (Z.leb_spec (Z.of_nat (length str)) maxLength) as [Hl|Hl]; [done|].
  change (length (js "...")) with 3%nat.
  destruct (Z.leb_spec (maxLength - Z.of_nat 3) 0) as [Ht|Ht].
  - rewrite slice_from_start by done. rewrite length_take. lia.
  - rewrite slice_from_start by lia. rewrite length_app, length_take.
    change (length (js "...")) with 3%nat. lia.
Qed.

(** X1: for a maximum length that is not negative, the result of [truncate]
    is never longer than the maximum. *)
Theorem truncate_length (str : jsstring) (maxLength : Z) :
  (0 ≤ maxLength)%Z →
  (Z.of_nat (length (truncate str maxLength)) ≤ maxLength)%Z.
Proof. apply truncate_fits. Qed.

Lemma truncate_length_witness :
  (Z.of_nat (length (truncate (js "Hello World") 8)) ≤ 8)%Z.
Proof. apply truncate_length. lia. Defined.

(** X2: a string that fits is returned as it is; a longer one, when the
    maximum is more than three, is cut to its first [maxLength - 3]
    characters followed by three dots, and the result is exactly [maxLength]
    long. *)
Theorem truncate_shape (str : jsstring) (maxLength : Z) :
  ((Z.of_nat (length str) ≤ maxLength)%Z → truncate str maxLength = str)
  ∧ ((3 < maxLength < Z.of_nat (length str))%Z →
     truncate str maxLength
     = take (Z.to_nat (maxLength - 3)) str ++ js "..."
     ∧ Z.of_nat (length (truncate str maxLength)) = maxLength).
Proof.
  unfold truncate. change (length (js "...")) with 3%nat. split.
  - intros H. by destruct (Z.leb_spec (Z.of_nat (length str)) maxLength); [|lia].
  - intros [H1 H2].
    destruct (Z.leb_spec (Z.of_nat (length str)) maxLength); [lia|].
    destruct (Z.leb_spec (maxLength - Z.of_nat 3) 0); [lia|].
    rewrite slice_from_start by lia. split; [done|].
    rewrite length_app, length_take. change (length (js "...")) with 3%nat.
    lia.
Qed.

Lemma truncate_shape_witness :
  truncate (js "Hello World") 8 = take 5 (js "Hello World") ++ js "..."
  ∧ Z.of_nat (length (truncate (js "Hello World") 8)) = 8%Z.
Proof.
  apply (proj2 (truncate_shape (js "Hello World") 8)). by vm_compute.
Defined.

(** X3: truncating twice to the same maximum, negative or not, is the same
    as truncating once. *)
Theorem truncate_idempotent (str : jsstring) (maxLength : Z) :
  truncate (truncate str maxLength) maxLength = truncate str maxLength.
Proof.
  destruct (Z.le_gt_cases 0 maxLength) as [Hm|Hm].
  - pose proof (truncate_fits str maxLength Hm) as H.
    unfold truncate at 1.
    by destruct (Z.leb_spec (Z.of_nat (length (truncate str maxLength)))
                   maxLength); [|lia].
  - unfold truncate.
    destruct (Z.leb_spec (Z.of_nat (length str)) maxLength); [lia|].
    change (length (js "...")) with 3%nat.
    destruct (Z.leb_spec (maxLength - Z.of_nat 3) 0); [|lia].
    by destruct (Z.leb_spec (Z.of_nat (length (slice (js "...") 0 maxLength)))
                   maxLength); [lia|].
Qed.

(* ===================================================================== *)
(** * Properties of sequences of supervisor operations *)
(* ===================================================================== *)

Section SupervisionLemmas.
Import DaemonManager Supervision.

Lemma set_unregistered w def :
  daemons w !! def_name def = None →
  set def w
  = (inr (),
     mkWorld (<[def_name def :=
                  mkDaemon (def_name def) (def_command def)
                    (length (refs w)) None]> (daemons w))
       (refs w ++ [stopped]) (fibers w)).
Proof.
  intros H. unfold set, bind, MutableHashMap_get. simpl. by rewrite H.
Qed.

Lemma stop_with_fiber w n d f :
  daemons w !! n = Some d → fiber d = Some f →
  stop n w
  = (inr (),
     mkWorld (daemons w) (<[state d := stopped]> (refs w))
       (alter (λ fb, mkFiber (task fb) true) f (fibers w))).
Proof.
  intros Hd Hf. unfold stop, bind, MutableHashMap_get. simpl.
  rewrite Hd. simpl. by rewrite Hf.
Qed.

Lemma stop_no_fiber w n d :
  daemons w !! n = Some d → fiber d = None → stop n w = (inr (), w).
Proof.
  intros Hd Hf. unfold stop, bind, MutableHashMap_get. simpl.
  rewrite Hd. simpl. by rewrite Hf.
Qed.

Lemma stop_unregistered w n :
  daemons w !! n = None → stop n w = (inl (mkDaemonNotFoundError n), w).
Proof.
  intros H. unfold stop, bind, MutableHashMap_get. simpl. by rewrite H.
Qed.

Lemma start_unregistered w n :
  daemons w !! n = None → start n w = (inl (mkDaemonNotFoundError n), w).
Proof.
  intros H. unfold start, bind, MutableHashMap_get. simpl. by rewrite H.
Qed.

(** a cell that is there reads the same after a cell is appended *)
Lemma lookup_total_snoc (l : list DaemonState) (i : nat) :
  (l ++ [stopped]) !!! i = l !!! i.
Proof.
  destruct (decide (i < length l)%nat) as [Hlt|Hge].
  - by rewrite lookup_total_app_l.
  - rewrite (list_lookup_total_alt l), lookup_ge_None_2 by lia. simpl.
    rewrite list_lookup_total_alt.
    destruct (decide (i = length l)) as [->|Hne].
    + by rewrite lookup_app_r, Nat.sub_diag.
    + by rewrite lookup_ge_None_2 by (rewrite length_app; simpl; lia).
Qed.

Lemma well_formed_empty : well_formed empty.
Proof. split; unfold empty; simpl; intros *; by rewrite lookup_empty. Qed.

Lemma well_formed_set w def : well_formed w → well_formed (set def w).2.
Proof.
  intros [Hn Hc Hf Ho].
  destruct (daemons w !! def_name def) as [e|] eqn:He.
  - rewrite (set_registered w def e He). simpl. split; simpl.
    + intros n d. rewrite lookup_insert. case_decide; [|by apply Hn].
      by intros [= <-].
    + intros n d. rewrite lookup_insert. case_decide; [|by apply Hc].
      intros [= <-]. simpl. by apply (Hc _ _ He).
    + intros n d f. rewrite lookup_insert. case_decide; [|by apply Hf].
      by intros [= <-].
    + intros n1 n2 d1 d2. rewrite !lookup_insert. repeat case_decide.
      * congruence.
      * intros [= <-] H2 E. simpl in E. subst. by apply (Ho _ _ _ _ He H2).
      * intros H1 [= <-] E. simpl in E. subst.
        symmetry. by apply (Ho _ _ _ _ He H1).
      * by apply Ho.
  - rewrite (set_unregistered w def He). simpl. split; simpl.
    + intros n d. rewrite lookup_insert. case_decide; [|by apply Hn].
      by intros [= <-].
    + intros n d. rewrite length_app, lookup_insert. simpl.
      case_decide; [intros [= <-]; simpl; lia|].
      intros Hm. apply Hc in Hm. lia.
    + intros n d f. rewrite lookup_insert. case_decide; [|by apply Hf].
      by intros [= <-].
    + intros n1 n2 d1 d2. rewrite !lookup_insert. repeat case_decide.
      * congruence.
      * intros [= <-] H2 E. simpl in E. apply Hc in H2. lia.
      * intros H1 [= <-] E. simpl in E. apply Hc in H1. lia.
      * by apply Ho.
Qed.

Lemma well_formed_start w n : well_formed w → well_formed (start n w).2.
Proof.
  intros [Hn Hc Hf Ho].
  destruct (daemons w !! n) as [d|] eqn:Hd;
    [|by rewrite (start_unregistered w n Hd)].
  destruct (decide (refs w !!! state d = running)) as [Hr|Hr];
    [by rewrite (start_running w n d Hd Hr)|].
  rewrite (start_not_running w n d Hd Hr). simpl. split; simpl.
  - intros m e. rewrite lookup_insert. case_decide; [|by apply Hn].
    intros [= <-]. simpl. subst. by apply Hn.
  - intros m e. rewrite length_insert, lookup_insert.
    case_decide; [|by apply Hc]. intros [= <-]. simpl. by apply (Hc _ _ Hd).
  - intros m e f. rewrite length_app, lookup_insert. simpl.
    case_decide; [intros [= <-] [= <-]; lia|].
    intros H1 H2. pose proof (Hf _ _ _ H1 H2). lia.
  - intros n1 n2 d1 d2. rewrite !lookup_insert. repeat case_decide.
    + congruence.
    + intros [= <-] H2 E. simpl in E. subst. by apply (Ho _ _ _ _ Hd H2).
    + intros H1 [= <-] E. simpl in E. subst.
      symmetry. by apply (Ho _ _ _ _ Hd H1).
    + by apply Ho.
Qed.

Lemma well_formed_stop w n : well_formed w → well_formed (stop n w).2.
Proof.
  intros [Hn Hc Hf Ho].
  destruct (daemons w !! n) as [d|] eqn:Hd;
    [|by rewrite (stop_unregistered w n Hd)].
  destruct (fiber d) as [f|] eqn:Hfd;
    [|by rewrite (stop_no_fiber w n d Hd Hfd)].
  rewrite (stop_with_fiber w n d f Hd Hfd). simpl. split; simpl.
  - done.
  - intros m e. rewrite length_insert. by apply Hc.
  - intros m e g. rewrite length_alter. by apply Hf.
  - done.
Qed.

Lemma well_formed_perform w op : well_formed w → well_formed (perform w op).
Proof.
  destruct op; simpl;
    [apply well_formed_set|apply well_formed_start|apply well_formed_stop].
Qed.

Lemma well_formed_after ops : well_formed (after ops).
Proof.
  unfold after. generalize well_formed_empty. generalize empty.
  induction ops as [|op ops IH]; intros w Hw; simpl; [done|].
  by apply IH, well_formed_perform.
Qed.

End SupervisionLemmas.

(** X4: whatever sequence of [set], [start] and [stop] calls a fresh service
    has seen, each entry is stored under its own name, the cell of its state
    and the fiber it records exist, and no two daemons share a state cell. *)
Theorem supervisor_well_formed ops : Supervision.well_formed (Supervision.after ops).
Proof. apply well_formed_after. Qed.

Section SupervisionTheorems.
Import DaemonManager Supervision.

Lemma observe_perform_other w op m :
  well_formed w → target op ≠ m →
  observe (perform w op) m = observe w m.
Proof.
  intros Hw Hne. pose proof Hw as [Hn Hc Hf Ho]. unfold observe.
  destruct op as [def|n|n]; simpl in *.
  - destruct (daemons w !! def_name def) as [e|] eqn:He.
    + rewrite (set_registered w def e He). simpl.
      by rewrite lookup_insert_ne.
    + rewrite (set_unregistered w def He). simpl.
      rewrite lookup_insert_ne by done.
      destruct (daemons w !! m); simpl; [|done].
      by rewrite lookup_total_snoc.
  - destruct (daemons w !! n) as [d|] eqn:Hd;
      [|by rewrite (start_unregistered w n Hd)].
    destruct (decide (refs w !!! state d = running)) as [Hr|Hr];
      [by rewrite (start_running w n d Hd Hr)|].
    rewrite (start_not_running w n d Hd Hr). simpl.
    rewrite lookup_insert_ne by done.
    destruct (daemons w !! m) as [e|] eqn:He; simpl; [|done].
    rewrite list_lookup_total_insert_ne; [done|].
    intros E. by apply Hne, (Ho _ _ _ _ Hd He).
  - destruct (daemons w !! n) as [d|] eqn:Hd;
      [|by rewrite (stop_unregistered w n Hd)].
    destruct (fiber d) as [f|] eqn:Hfd;
      [|by rewrite (stop_no_fiber w n d Hd Hfd)].
    rewrite (stop_with_fiber w n d f Hd Hfd). simpl.
    destruct (daemons w !! m) as [e|] eqn:He; simpl; [|done].
    rewrite list_lookup_total_insert_ne; [done|].
    intros E. by apply Hne, (Ho _ _ _ _ Hd He).
Qed.

(** X5: an operation on one daemon never changes the state another daemon
    is observed in, whatever the service has been through. *)
Theorem operations_are_isolated ops op m :
  target op ≠ m →
  observe (perform (after ops) op) m = observe (after ops) m.
Proof. apply observe_perform_other, well_formed_after. Qed.

Lemma operations_are_isolated_witness :
  let ops := [OpSet (mkDaemonDef "bar" ("kitten", ["panel"]));
              OpSet test_daemon; OpStart "bar"] in
  observe (perform (after ops) (OpStart "test-daemon")) "bar" = Some running
  ∧ observe (perform (after ops) (OpStop "test-daemon")) "bar" = Some running.
Proof.
  split.
  - rewrite operations_are_isolated; by vm_compute.
  - rewrite operations_are_isolated; by vm_compute.
Defined.

(** X6: after [set], the daemon has the command given; it is observed
    stopped when the name was not registered, and in the state it was
    observed in before when it was. *)
Theorem set_command_and_state w def :
  let w' := (set def w).2 in
  command <$> daemons w' !! def_name def = Some (def_command def)
  ∧ observe w' (def_name def)
    = Some (default stopped (observe w (def_name def))).
Proof.
  unfold observe. destruct (daemons w !! def_name def) as [e|] eqn:He.
  - rewrite (set_registered w def e He). simpl.
    by rewrite lookup_insert_eq.
  - rewrite (set_unregistered w def He). simpl.
    rewrite lookup_insert_eq. simpl. split; [done|].
    by rewrite list_lookup_total_middle.
Qed.

(** X7: [stop] twice in a row gives the result and the service of [stop]
    once. *)
Theorem stop_idempotent w n :
  stop n (stop n w).2 = stop n w.
Proof.
  destruct (daemons w !! n) as [d|] eqn:Hd.
  2:{ rewrite (stop_unregistered w n Hd). simpl.
      by rewrite (stop_unregistered w n Hd). }
  destruct (fiber d) as [f|] eqn:Hf.
  2:{ rewrite (stop_no_fiber w n d Hd Hf). simpl.
      by rewrite (stop_no_fiber w n d Hd Hf). }
  rewrite (stop_with_fiber w n d f Hd Hf). simpl.
  rewrite (stop_with_fiber _ n d f) by done. simpl.
  rewrite list_insert_insert_eq. do 2 f_equal.
  apply list_eq. intros i. rewrite !list_lookup_alter.
  destruct (decide (f = i)); [|done].
  destruct (decide (f = f)); [|done].
  by destruct (fibers w !! f).
Qed.

(** X8: [set] stores the entry without a handle, so a [stop] of the same
    name that follows succeeds and changes nothing, also when the state of
    the daemon reads running. *)
Theorem stop_after_set w def :
  stop (def_name def) (set def w).2 = (inr (), (set def w).2).
Proof.
  destruct (daemons w !! def_name def) as [e|] eqn:He.
  - rewrite (set_registered w def e He). simpl.
    eapply stop_no_fiber; simpl; [by rewrite lookup_insert_eq|done].
  - rewrite (set_unregistered w def He). simpl.
    eapply stop_no_fiber; simpl; [by rewrite lookup_insert_eq|done].
Qed.



End SupervisionTheorems.

Section SupervisionCycle.
Import DaemonManager Supervision.

(** [start], [stop] and [start] again on a registered daemon that reads
    stopped, step by step *)
Lemma start_stop_start w n d :
  daemons w !! n = Some d →
  refs w !!! state d = stopped →
  (state d < length (refs w))%nat →
  let k := length (fibers w) in
  let d1 := mkDaemon (name d) (command d) (state d) (Some k) in
  let w1 := mkWorld (<[n := d1]> (daemons w)) (<[state d := running]> (refs w))
              (fibers w ++ [mkFiber d false]) in
  let w2 := mkWorld (daemons w1) (<[state d := stopped]> (refs w))
              (fibers w ++ [mkFiber d true]) in
  let w3 := mkWorld
              (<[n := mkDaemon (name d) (command d) (state d) (Some (S k))]>
                 (daemons w))
              (<[state d := running]> (refs w))
              (fibers w ++ [mkFiber d true; mkFiber d1 false]) in
  perform w (OpStart n) = w1
  ∧ perform w1 (OpStop n) = w2
  ∧ perform w2 (OpStart n) = w3.
Proof.
  intros Hd Hr Hc k d1 w1 w2 w3. simpl.
  assert ((start n w).2 = w1) as E1.
  { rewrite (start_not_running w n d Hd) by (rewrite Hr; done). done. }
  assert ((stop n w1).2 = w2) as E2.
  { rewrite (stop_with_fiber w1 n d1 k); [|by apply lookup_insert_eq|done].
    simpl. unfold w2. f_equal.
    - by rewrite list_insert_insert_eq.
    - apply list_eq. intros i. rewrite list_lookup_alter. case_decide.
      + subst i. unfold k. by rewrite !lookup_app_r, Nat.sub_diag.
      + destruct (decide (i < k)%nat).
        * by rewrite !lookup_app_l by done.
        * by rewrite !lookup_ge_None_2
            by (rewrite length_app; simpl; unfold k in *; lia). }
  split; [done|]. split; [done|].
  rewrite (start_not_running w2 n d1); simpl.
  - unfold w3, w2, w1. simpl. rewrite length_app. simpl.
    rewrite Nat.add_1_r. fold k. f_equal.
    + by rewrite insert_insert_eq.
    + by rewrite list_insert_insert_eq.
    + by rewrite <- app_assoc.
  - by apply lookup_insert_eq.
  - by rewrite list_lookup_total_insert_eq.
Qed.

(** X10: on a daemon that is observed stopped, [start] forks one fiber,
    records it and makes the daemon observed running; the [stop] that follows
    interrupts that fiber and makes the daemon observed stopped again. *)
Theorem start_then_stop ops n :
  let w := after ops in
  let w1 := perform w (OpStart n) in
  let w2 := perform w1 (OpStop n) in
  observe w n = Some stopped →
  observe w1 n = Some running
  ∧ handle w1 n = Some (length (fibers w))
  ∧ length (fibers w1) = S (length (fibers w))
  ∧ interrupted <$> fibers w1 !! length (fibers w) = Some false
  ∧ observe w2 n = Some stopped
  ∧ interrupted <$> fibers w2 !! length (fibers w) = Some true.
Proof.
  intros w w1 w2 Ho. unfold observe in Ho.
  destruct (daemons w !! n) as [d|] eqn:Hd; [|done].
  injection Ho as Hr.
  pose proof (wf_cell _ (well_formed_after ops) n d Hd) as Hc.
  destruct (start_stop_start w n d Hd Hr Hc) as (E1 & E2 & _).
  unfold w2, w1. rewrite E1, E2. unfold observe, handle. simpl.
  rewrite !lookup_insert_eq. simpl.
  rewrite !list_lookup_total_insert_eq by done.
  rewrite !lookup_app_r, Nat.sub_diag by done.
  rewrite length_app. simpl. repeat split; try done. lia.
Qed.

Lemma start_then_stop_witness :
  let w := after [OpSet test_daemon] in
  let w1 := perform w (OpStart "test-daemon") in
  let w2 := perform w1 (OpStop "test-daemon") in
  observe w1 "test-daemon" = Some running
  ∧ observe w2 "test-daemon" = Some stopped
  ∧ interrupted <$> fibers w2 !! 0%nat = Some true.
Proof.
  destruct (start_then_stop [OpSet test_daemon] "test-daemon")
    as (H1 & _ & _ & _ & H2 & H3); [by vm_compute|].
  done.
Defined.

(** X11: a daemon that was started and stopped can be started again: the
    second [start] forks a new fiber under a new handle and leaves the
    interrupted fiber of the first run in place. *)
Theorem restart_forks_anew ops n :
  let w := after ops in
  let w1 := perform w (OpStart n) in
  let w3 := perform (perform w1 (OpStop n)) (OpStart n) in
  observe w n = Some stopped →
  observe w3 n = Some running
  ∧ handle w3 n = Some (S (length (fibers w)))
  ∧ handle w3 n ≠ handle w1 n
  ∧ interrupted <$> fibers w3 !! length (fibers w) = Some true
  ∧ interrupted <$> fibers w3 !! S (length (fibers w)) = Some false.
Proof.
  intros w w1 w3 Ho. unfold observe in Ho.
  destruct (daemons w !! n) as [d|] eqn:Hd; [|done].
  injection Ho as Hr.
  pose proof (wf_cell _ (well_formed_after ops) n d Hd) as Hc.
  destruct (start_stop_start w n d Hd Hr Hc) as (E1 & E2 & E3).
  unfold w3, w1. rewrite E1, E2, E3. unfold observe, handle. simpl.
  rewrite !lookup_insert_eq. simpl.
  rewrite !list_lookup_total_insert_eq by done.
  rewrite !lookup_app_r by lia. rewrite Nat.sub_diag.
  replace (S (length (fibers w)) - length (fibers w))%nat with 1%nat by lia.
  simpl. repeat split; try done. intros [= E]. lia.
Qed.

Lemma restart_forks_anew_witness :
  let w := after [OpSet test_daemon] in
  let w3 := perform (perform (perform w (OpStart "test-daemon"))
                       (OpStop "test-daemon")) (OpStart "test-daemon") in
  observe w3 "test-daemon" = Some running ∧ handle w3 "test-daemon" = Some 1%nat.
Proof.
  destruct (restart_forks_anew [OpSet test_daemon] "test-daemon")
    as (H1 & H2 & _); [by vm_compute|].
  done.
Defined.

(** X12: [list], iterated at once, gives the registered entries and nothing
    else, each name once, and leaves the service as it is. *)
Theorem list_is_the_registry ops :
  let w := after ops in
  ∃ l, list_daemons w = (inr l, w)
       ∧ (∀ d, d ∈ l ↔ ∃ n, daemons w !! n = Some d)
       ∧ NoDup (name <$> l)
       ∧ length l = size (daemons w).
Proof.
  intros w. exists (map snd (map_to_list (daemons w))).
  split; [done|]. split; [|split].
  - intros d. rewrite list_elem_of_fmap. split.
    + intros ([n d'] & -> & Hin). exists n. by apply elem_of_map_to_list.
    + intros (n & Hn). exists (n, d). split; [done|].
      by apply elem_of_map_to_list.
  - replace (name <$> map snd (map_to_list (daemons w)))
      with ((map_to_list (daemons w)).*1).
    { apply NoDup_fst_map_to_list. }
    rewrite <- list_fmap_compose. apply list_fmap_ext.
    intros i [n d] Hi. simpl. symmetry.
    apply (wf_name _ (well_formed_after ops) n d).
    apply elem_of_map_to_list. by eapply list_elem_of_lookup_2.
  - by rewrite length_map, length_map_to_list.
Qed.

End SupervisionCycle.

(* ===================================================================== *)
(** * The parsers read back what a line holds *)
(* ===================================================================== *)

Section Backtracking.
Context {R : Type}.
Implicit Types (p : N → bool) (k : option N → jsstring → option R).

(** When the rest of the pattern fails after every run of the class at the
    front of [t], [class*] on [t] takes nothing. *)
Lemma star_loop_gives_back p k prev t :
  (∀ u v, t = u ++ v → u ≠ [] → forallb p u = true →
          ∀ prev', k prev' v = None) →
  star_loop p k prev t = k prev t.
Proof.
  revert prev. induction t as [|c t IH]; intros prev Hfail; simpl; [done|].
  destruct (p c) eqn:Hc; [|done].
  rewrite IH.
  - by rewrite (Hfail [c] t) by (simpl; rewrite ?Hc; done).
  - intros u v -> Hu Hpu prev'.
    apply (Hfail (c :: u) v); [done|done|]. simpl. by rewrite Hc.
Qed.

(** The greedy [class*] ends on the longest run after which the rest of the
    pattern matches. *)
Lemma star_loop_backtrack p k prev w t r :
  forallb p w = true →
  (∀ prev', k prev' t = Some r) →
  (∀ u v, t = u ++ v → u ≠ [] → forallb p u = true →
          ∀ prev', k prev' v = None) →
  star_loop p k prev (w ++ t) = Some r.
Proof.
  intros Hw Hk Hfail. revert prev.
  induction w as [|c w IH]; intros prev; simpl.
  - by rewrite star_loop_gives_back.
  - simpl in Hw. apply andb_true_iff in Hw as [Hc Hw].
    by rewrite Hc, (IH Hw).
Qed.

End Backtracking.

Lemma run_group_backtrack ml p pat opens caps prev w t r :
  run_of p w →
  (∀ prev', run ml pat opens (w :: caps) prev' t = Some r) →
  (∀ u v caps' prev', t = u ++ v → u ≠ [] →
                      run ml pat opens caps' prev' v = None) →
  run ml (Open :: Plus p :: Close :: pat) opens caps prev (w ++ t) = Some r.
Proof.
  intros [Hne Hw] Hk Hfail. destruct w as [|c w]; [done|].
  simpl in Hw. apply andb_true_iff in Hw as [Hc Hw].
  cbn [run plus_loop app]. rewrite Hc.
  apply star_loop_backtrack; [done| |].
  - intros prev'. change (c :: w ++ t) with ((c :: w) ++ t).
    by rewrite take_captured.
  - intros u v -> Hu _ prev'. by apply (Hfail u v).
Qed.

Lemma re_connected_complete w :
  run_of word w →
  exec false re_connected (w ++ js ": connected")
  = Some [w ++ js ": connected"; w].
Proof.
  intros Hw. unfold re_connected. cbn [app]. rewrite exec_anchored.
  apply fmap_Some. exists ([w], []). split; [|by rewrite match_array_all].
  apply run_group_greedy; [done|by apply stops_at|]. intros p1.
  rewrite <- (app_nil_r (js ": connected")) at 2.
  by apply run_lits_complete.
Qed.

Lemma re_disconnected_complete w :
  run_of word w →
  exec false re_disconnected (w ++ js ": disconnected")
  = Some [w ++ js ": disconnected"; w].
Proof.
  intros Hw. unfold re_disconnected. cbn [app]. rewrite exec_anchored.
  apply fmap_Some. exists ([w], []). split; [|by rewrite match_array_all].
  apply run_group_greedy; [done|by apply stops_at|]. intros p1.
  rewrite <- (app_nil_r (js ": disconnected")) at 2.
  by apply run_lits_complete.
Qed.

Lemma re_connectivity_complete w :
  run_of word w →
  exec false re_connectivity (js "Connectivity is now '" ++ w ++ js "'")
  = Some [js "Connectivity is now '" ++ w ++ js "'"; w].
Proof.
  intros Hw. unfold re_connectivity.
  change ([Bol] ++ ?p) with (Bol :: p). rewrite exec_anchored.
  apply fmap_Some. exists ([w], []). split; [|by rewrite match_array_all].
  apply run_lits_complete. intros p1. cbn [app].
  apply run_group_greedy; [done|by apply stops_at|]. intros p2.
  rewrite <- (app_nil_r (js "'")) at 2.
  by apply run_lits_complete.
Qed.

Lemma re_using_complete w s :
  run_of word w → run_of dot s →
  exec false re_using (w ++ js ": using connection '" ++ s ++ js "'")
  = Some [w ++ js ": using connection '" ++ s ++ js "'"; w; s].
Proof.
  intros Hw Hs. unfold re_using. cbn [app]. rewrite exec_anchored.
  apply fmap_Some. exists ([w; s], []). split; [|by rewrite match_array_all].
  apply run_group_greedy; [done|by apply stops_at|]. intros p1.
  apply run_lits_complete. intros p2. cbn [app].
  apply run_group_backtrack; [done| |].
  - intros p3. rewrite <- (app_nil_r (js "'")) at 2.
    by apply run_lits_complete.
  - intros u v caps' p3 E Hu.
    destruct u as [|c u]; [done|]. destruct u, v; try done.
Qed.

(** X13: a line ["<device>: connected"] or ["<device>: disconnected"] whose
    device name is a run of word characters is parsed to the event of that
    kind for exactly that device, and a line ["Connectivity is now '<level>'"]
    whose level is a run of word characters to the connectivity event with
    exactly that level. *)
Theorem parseMonitorLine_reads_back w :
  run_of word w →
  parseMonitorLine (w ++ js ": connected")
  = Some (mkMonitorEvent connected (Some w) None None)
  ∧ parseMonitorLine (w ++ js ": disconnected")
    = Some (mkMonitorEvent disconnected (Some w) None None)
  ∧ parseMonitorLine (js "Connectivity is now '" ++ w ++ js "'")
    = Some (mkMonitorEvent connectivity None None (Some w)).
Proof.
  intros Hw. split; [|split]; unfold parseMonitorLine.
  - by rewrite re_connected_complete.
  - destruct (exec false re_connected _) eqn:H1.
    { apply re_connected_sound in H1 as (x & _ & H' & _). ends_differ H'. }
    by rewrite re_disconnected_complete.
  - destruct (exec false re_connected _) eqn:H1.
    { apply re_connected_sound in H1 as (x & _ & H' & _). ends_differ H'. }
    destruct (exec false re_disconnected _) eqn:H2.
    { apply re_disconnected_sound in H2 as (x & _ & H' & _). ends_differ H'. }
    destruct (exec false re_using _) eqn:H3.
    { exfalso. apply re_using_sound in H3 as (x & s & _ & _ & H' & _).
      assert (58 ∈ js "Connectivity is now '" ++ w ++ js "'") as Hin.
      { rewrite H'. apply elem_of_app. right. apply elem_of_app. left.
        by left. }
      apply elem_of_app in Hin as [Hin|Hin]; [by apply not_in_text in Hin|].
      apply elem_of_app in Hin as [Hin|Hin]; [|by apply not_in_text in Hin].
      by apply (run_without word) in Hin; [|done|apply Hw]. }
    by rewrite re_connectivity_complete.
Qed.

Lemma parseMonitorLine_reads_back_witness :
  parseMonitorLine (js "enp3s0" ++ js ": disconnected")
  = Some (mkMonitorEvent disconnected (Some (js "enp3s0")) None None).
Proof.
  apply (parseMonitorLine_reads_back (js "enp3s0")). by vm_compute.
Defined.

(** X14: a line ["<device>: using connection '<ssid>'"] whose device name is
    a run of word characters and whose network name is any text without a
    line terminator, quotes and colons included, is parsed to the connecting
    event for exactly that device and that network name. *)
Theorem parseMonitorLine_reads_back_using w s :
  run_of word w → run_of dot s →
  parseMonitorLine (w ++ js ": using connection '" ++ s ++ js "'")
  = Some (mkMonitorEvent connecting (Some w) (Some s) None).
Proof.
  intros Hw Hs. unfold parseMonitorLine.
  destruct (exec false re_connected _) eqn:H1.
  { apply re_connected_sound in H1 as (x & _ & H' & _). ends_differ H'. }
  destruct (exec false re_disconnected _) eqn:H2.
  { apply re_disconnected_sound in H2 as (x & _ & H' & _). ends_differ H'. }
  by rewrite re_using_complete.
Qed.

Lemma parseMonitorLine_reads_back_using_witness :
  parseMonitorLine
    (js "wlan0" ++ js ": using connection '" ++ js "Joe's 5G: guest" ++ js "'")
  = Some (mkMonitorEvent connecting (Some (js "wlan0"))
            (Some (js "Joe's 5G: guest")) None).
Proof.
  apply (parseMonitorLine_reads_back_using (js "wlan0")); by vm_compute.
Defined.

(** X15: a line ["Event '<action>' on <objectType> #<index>"] made of a run
    of word characters, a run of word characters and hyphens and a run of
    digits is parsed to the event with exactly that action and object type,
    and with the number the digits write (rounded to binary64) as index. *)
Theorem parseSubscribeLine_reads_back a o i :
  run_of word a → run_of word_or_hyphen o → run_of digit i →
  parseSubscribeLine (js "Event '" ++ a ++ js "' on " ++ o ++ js " #" ++ i)
  = Some (mkAudioEvent a o (Z2float (digits_value i))).
Proof.
  intros Ha Ho Hi. rewrite <- (parseInt10_digits i Hi).
  apply parseSubscribeLine_Some. eauto 10.
Qed.

Lemma parseSubscribeLine_reads_back_witness :
  parseSubscribeLine
    (js "Event '" ++ js "remove" ++ js "' on " ++ js "source-output" ++ js " #"
     ++ js "123")
  = Some (mkAudioEvent (js "remove") (js "source-output") 123%float).
Proof.
  apply (parseSubscribeLine_reads_back (js "remove") (js "source-output")
           (js "123")); by vm_compute.
Defined.

(* ===================================================================== *)
(** * The monitors: lines and chunks *)
(* ===================================================================== *)

Lemma split_lines_cons_other c s :
  c ≠ 10 →
  split_lines (c :: s)
  = (c :: List.hd [] (split_lines s)) :: List.tl (split_lines s).
Proof.
  intros Hc. simpl. rewrite (proj2 (N.eqb_neq c 10) Hc).
  by destruct (split_lines s).
Qed.

Lemma split_lines_nonempty s : split_lines s ≠ [].
Proof.
  destruct s as [|c s]; simpl; [done|].
  destruct (c =? 10); [done|]. by destruct (split_lines s).
Qed.

(** The lines before the last piece, each with its line feed, and the last
    piece give the text back; no piece holds a line feed. *)
Lemma split_lines_unlines s :
  unlines (removelast (split_lines s)) ++ List.last (split_lines s) [] = s
  ∧ Forall (λ piece, 10 ∉ piece) (split_lines s).
Proof.
  induction s as [|c s [IH1 IH2]].
  { split; [done|]. constructor; [apply not_elem_of_nil|constructor]. }
  pose proof (split_lines_nonempty s) as Hne.
  destruct (decide (c = 10)) as [->|Hc].
  - simpl. destruct (split_lines s) as [|l ls] eqn:E; [done|].
    split; [|constructor; [apply not_elem_of_nil|done]].
    unfold unlines in *. simpl in *. by rewrite IH1.
  - rewrite split_lines_cons_other by done.
    destruct (split_lines s) as [|l ls] eqn:E; [done|]. simpl.
    apply Forall_cons in IH2 as [Hl Hls]. split.
    + destruct ls as [|l' ls]; simpl in *; [by rewrite <- IH1|].
      unfold unlines in *. simpl in *. rewrite <- IH1.
      by rewrite <- !app_assoc.
    + constructor; [|done]. apply not_elem_of_cons. by split.
Qed.

(** Text without a line feed is one piece. *)
Lemma split_lines_one s : 10 ∉ s → split_lines s = [s].
Proof.
  induction s as [|c s IH]; [done|]. intros Hs.
  apply not_elem_of_cons in Hs as [Hc Hs].
  rewrite split_lines_cons_other by done. by rewrite IH.
Qed.

(** Splitting a text is splitting its front part and going on from the last
    piece of it. *)
Lemma split_lines_app u v :
  split_lines (u ++ v)
  = removelast (split_lines u)
    ++ split_lines (List.last (split_lines u) [] ++ v).
Proof.
  induction u as [|c u IH]; [done|].
  pose proof (split_lines_nonempty u) as Hne.
  destruct (decide (c = 10)) as [->|Hc].
  - simpl. rewrite IH. by destruct (split_lines u) as [|l [|l' ls]].
  - change ((c :: u) ++ v) with (c :: (u ++ v)).
    rewrite !split_lines_cons_other by done. rewrite IH.
    destruct (split_lines u) as [|l [|l' ls]] eqn:E; [done| |].
    + cbn [hd tl removelast List.last app].
      by rewrite split_lines_cons_other by done.
    + done.
Qed.

(** X16: taking a chunk in loses nothing and repeats nothing: the complete
    lines, each with its line feed, followed by the partial line that is
    kept, are the old partial line followed by the chunk; no line handed on
    holds a line feed, and neither does the partial line. *)
Theorem feed_keeps_the_text buffer text :
  unlines (feed buffer text).1 ++ (feed buffer text).2 = buffer ++ text
  ∧ Forall (λ line, 10 ∉ line) (feed buffer text).1
  ∧ 10 ∉ (feed buffer text).2.
Proof.
  unfold feed. simpl.
  destruct (split_lines_unlines (buffer ++ text)) as [H1 H2].
  pose proof (split_lines_nonempty (buffer ++ text)) as Hne.
  split; [done|].
  destruct (exists_last Hne) as (ls & l & E). rewrite E in *.
  rewrite removelast_last, last_last.
  apply Forall_app in H2 as [H2 H3]. split; [done|].
  by apply Forall_cons in H3 as [H3 _].
Qed.

(** X17: where the stream is cut into chunks does not matter: taking in two
    chunks one after the other hands on the same lines in the same order,
    and keeps the same partial line, as taking in both at once. *)
Theorem feed_chunks buffer x y :
  let first := feed buffer x in
  let second := feed first.2 y in
  feed buffer (x ++ y) = (first.1 ++ second.1, second.2).
Proof.
  unfold feed. simpl. rewrite app_assoc, split_lines_app.
  pose proof (split_lines_nonempty
                (List.last (split_lines (buffer ++ x)) [] ++ y)) as Hne.
  destruct (exists_last Hne) as (ls & l & E). rewrite E.
  rewrite app_assoc, !removelast_last, !last_last. done.
Qed.

Lemma alter_insert_same {A} (f : A → A) (l : list A) (i : nat) (x : A) :
  f x = x → alter f i (<[i := x]> l) = <[i := x]> l.
Proof.
  intros Hf. apply list_eq. intros j. rewrite list_lookup_alter.
  case_decide; [subst j|done].
  destruct (decide (i < length l)%nat).
  - rewrite list_lookup_insert_eq by done. simpl. by rewrite Hf.
  - by rewrite lookup_ge_None_2 by (rewrite length_insert; lia).
Qed.

(** X18: a chunk that completes no line is only added to the partial line of
    the read loop: nothing is parsed, nothing is called, in either monitor. *)
Theorem chunk_without_line_feed pid buffer text :
  10 ∉ buffer → 10 ∉ text →
  (∀ options s,
     NetworkMonitor.stopped s = false →
     NetworkMonitor.loops s !! pid = Some (mkReadLoop buffer Waiting) →
     NetworkMonitor.step options s (NetworkMonitor.Chunk pid text)
     = (NetworkMonitor.set_loop pid (mkReadLoop (buffer ++ text) Waiting) s,
        []))
  ∧ (∀ options s,
       AudioMonitor.stopped s = false →
       AudioMonitor.loops s !! pid = Some (mkReadLoop buffer Waiting) →
       AudioMonitor.step options s (AudioMonitor.Chunk pid text)
       = (AudioMonitor.set_loop pid (mkReadLoop (buffer ++ text) Waiting) s,
          [])).
Proof.
  intros Hb Ht.
  assert (split_lines (buffer ++ text) = [buffer ++ text]) as E.
  { apply split_lines_one. intros Hin.
    apply elem_of_app in Hin as [Hin|Hin]; done. }
  split; intros options s Hs Hl; simpl; rewrite Hl, Hs, E; simpl.
  - unfold NetworkMonitor.set_at, NetworkMonitor.set_loop. simpl.
    by rewrite alter_insert_same.
  - unfold AudioMonitor.set_at, AudioMonitor.set_loop. simpl.
    by rewrite alter_insert_same.
Qed.

Lemma chunk_without_line_feed_witness :
  let s := (NetworkMonitor.step NetworkMonitor.all_callbacks
              NetworkMonitor.create.1
              (NetworkMonitor.InitQueryDone (NetworkMonitor.Resolved None)
                 true)).1 in
  NetworkMonitor.step NetworkMonitor.all_callbacks s
    (NetworkMonitor.Chunk 0 (js "wlan0: conn"))
  = (NetworkMonitor.set_loop 0 (mkReadLoop ([] ++ js "wlan0: conn") Waiting) s,
     []).
Proof.
  intros s.
  apply (proj1 (chunk_without_line_feed 0 [] (js "wlan0: conn")
                  (not_elem_of_nil _)
                  ltac:(apply not_in_text; by vm_compute)));
    by vm_compute.
Defined.

(** X19: the stop function of either monitor can be called again: the second
    call leaves the monitor as the first one left it and makes the same
    calls again. *)
Theorem monitor_stop_idempotent :
  (∀ s, NetworkMonitor.stop (NetworkMonitor.stop s).1 = NetworkMonitor.stop s)
  ∧ (∀ s, AudioMonitor.stop (AudioMonitor.stop s).1 = AudioMonitor.stop s).
Proof.
  split; intros s.
  - unfold NetworkMonitor.stop. simpl.
    destruct (NetworkMonitor.signalInterval s) as [t|] eqn:E; simpl.
    + rewrite E. unfold NetworkMonitor.set_intervals. simpl.
      by rewrite list_insert_insert_eq.
    + by rewrite E.
  - done.
Qed.

Lemma network_round options s evs :
  NetworkMonitor.stopped s = false →
  let k := length (NetworkMonitor.loops s) in
  let s1 := NetworkMonitor.set_loops
              (NetworkMonitor.loops s ++ [mkReadLoop [] Waiting])
              (NetworkMonitor.set_proc (Some k) s) in
  NetworkMonitor.run options s
    (NetworkMonitor.ChildExit :: NetworkMonitor.RestartTimer true :: evs)
  = ((NetworkMonitor.run options s1 evs).1,
     (NetworkMonitor.ChildExit, [NetworkMonitor.SetTimeout_startMonitor])
     :: (NetworkMonitor.RestartTimer true, [NetworkMonitor.Spawn k])
     :: (NetworkMonitor.run options s1 evs).2).
Proof.
  intros Hs k s1. cbn [NetworkMonitor.run NetworkMonitor.step].
  rewrite Hs. cbn [NetworkMonitor.restarts NetworkMonitor.set_restarts].
  unfold NetworkMonitor.startMonitor. simpl. rewrite Hs.
  replace (NetworkMonitor.set_loops _ _) with s1
    by (unfold s1; destruct s; reflexivity).
  by destruct (NetworkMonitor.run options s1 evs).
Qed.

Lemma audio_round options s evs :
  AudioMonitor.stopped s = false →
  let k := length (AudioMonitor.loops s) in
  let s1 := AudioMonitor.set_loops
              (AudioMonitor.loops s ++ [mkReadLoop [] Waiting])
              (AudioMonitor.set_proc (Some k) s) in
  AudioMonitor.run options s
    (AudioMonitor.ChildExit :: AudioMonitor.RestartTimer true :: evs)
  = ((AudioMonitor.run options s1 evs).1,
     (AudioMonitor.ChildExit, [AudioMonitor.SetTimeout_startMonitor])
     :: (AudioMonitor.RestartTimer true, [AudioMonitor.Spawn k])
     :: (AudioMonitor.run options s1 evs).2).
Proof.
  intros Hs k s1. cbn [AudioMonitor.run AudioMonitor.step].
  rewrite Hs. cbn [AudioMonitor.restarts AudioMonitor.set_restarts].
  unfold AudioMonitor.startMonitor. simpl. rewrite Hs.
  replace (AudioMonitor.set_loops _ _) with s1
    by (unfold s1; destruct s; reflexivity).
  by destruct (AudioMonitor.run options s1 evs).
Qed.

(** X20: a monitor that has not been stopped starts its child again every
    time it exits, with no limit: after [n] rounds of a child exit and the
    restart timer, the monitor is still running, it has started [n] more
    children, one per exit and each with a read loop of its own, and the
    last one is its current child. *)
Theorem restart_has_no_limit n :
  (∀ options s,
     NetworkMonitor.stopped s = false →
     let s' := (NetworkMonitor.run options s (network_rounds n)).1 in
     let log := (NetworkMonitor.run options s (network_rounds n)).2 in
     let k := length (NetworkMonitor.loops s) in
     NetworkMonitor.stopped s' = false
     ∧ NetworkMonitor.loops s'
       = NetworkMonitor.loops s ++ replicate n (mkReadLoop [] Waiting)
     ∧ filter (λ a, NetworkMonitor.is_spawn a = true) (concat (log.*2))
       = NetworkMonitor.Spawn <$> seq k n
     ∧ (n ≠ 0%nat → NetworkMonitor.proc s' = Some (k + n - 1)%nat))
  ∧ (∀ options s,
       AudioMonitor.stopped s = false →
       let s' := (AudioMonitor.run options s (audio_rounds n)).1 in
       let log := (AudioMonitor.run options s (audio_rounds n)).2 in
       let k := length (AudioMonitor.loops s) in
       AudioMonitor.stopped s' = false
       ∧ AudioMonitor.loops s'
         = AudioMonitor.loops s ++ replicate n (mkReadLoop [] Waiting)
       ∧ filter (λ a, AudioMonitor.is_spawn a = true) (concat (log.*2))
         = AudioMonitor.Spawn <$> seq k n
       ∧ (n ≠ 0%nat → AudioMonitor.proc s' = Some (k + n - 1)%nat)).
Proof.
  split; intros options.
  - induction n as [|n IH]; intros s Hs.
    { simpl. rewrite app_nil_r. done. }
    unfold network_rounds. cbn [replicate concat app].
    rewrite network_round by done. cbn [fst snd].
    set (s1 := NetworkMonitor.set_loops _ _).
    destruct (IH s1) as (H1 & H2 & H3 & H4); [by destruct s|].
    fold (network_rounds n). split; [done|]. split; [|split].
    + rewrite H2. unfold s1. simpl. by rewrite <- app_assoc.
    + cbn [fmap list_fmap concat app snd]. simpl.
      rewrite filter_cons_False by (simpl; done).
      rewrite filter_cons_True by done.
      rewrite H3. unfold s1. simpl. rewrite length_app. simpl.
      by rewrite Nat.add_1_r.
    + intros _. destruct n as [|n].
      * simpl. f_equal. lia.
      * rewrite H4 by done. unfold s1. simpl. rewrite length_app. simpl.
        f_equal. lia.
  - induction n as [|n IH]; intros s Hs.
    { simpl. rewrite app_nil_r. done. }
    unfold audio_rounds. cbn [replicate concat app].
    rewrite audio_round by done. cbn [fst snd].
    set (s1 := AudioMonitor.set_loops _ _).
    destruct (IH s1) as (H1 & H2 & H3 & H4); [by destruct s|].
    fold (audio_rounds n). split; [done|]. split; [|split].
    + rewrite H2. unfold s1. simpl. by rewrite <- app_assoc.
    + cbn [fmap list_fmap concat app snd]. simpl.
      rewrite filter_cons_False by (simpl; done).
      rewrite filter_cons_True by done.
      rewrite H3. unfold s1. simpl. rewrite length_app. simpl.
      by rewrite Nat.add_1_r.
    + intros _. destruct n as [|n].
      * simpl. f_equal. lia.
      * rewrite H4 by done. unfold s1. simpl. rewrite length_app. simpl.
        f_equal. lia.
Qed.

Lemma restart_has_no_limit_witness :
  let s := (NetworkMonitor.step NetworkMonitor.all_callbacks
              NetworkMonitor.create.1
              (NetworkMonitor.InitQueryDone (NetworkMonitor.Resolved None)
                 true)).1 in
  NetworkMonitor.proc
    (NetworkMonitor.run NetworkMonitor.all_callbacks s (network_rounds 3)).1
  = Some 3%nat.
Proof.
  intros s.
  destruct (proj1 (restart_has_no_limit 3) NetworkMonitor.all_callbacks s)
    as (_ & _ & _ & H); [by vm_compute|].
  by apply H.
Defined.

Lemma network_handle_other options pid lines s :
  Forall (λ line, ∀ ev, parseMonitorLine line = Some ev →
                        ¬ network_relevant ev) lines →
  NetworkMonitor.handle_lines options pid lines s
  = (NetworkMonitor.set_at pid Waiting s, []).
Proof.
  induction 1 as [|line lines Hline _ IH]; simpl; [done|].
  destruct (parseMonitorLine line) as [ev|]; [|done].
  specialize (Hline ev eq_refl). unfold network_relevant in Hline.
  destruct (ev_type ev); try done; exfalso; apply Hline; auto.
Qed.

Lemma audio_handle_other pid lines s :
  Forall (λ line, ∀ ev, parseSubscribeLine line = Some ev →
                        ¬ audio_relevant ev) lines →
  AudioMonitor.handle_lines pid lines s
  = (AudioMonitor.set_at pid Waiting s, []).
Proof.
  induction 1 as [|line lines Hline _ IH]; simpl; [done|].
  destruct (parseSubscribeLine line) as [ev|]; [|done].
  specialize (Hline ev eq_refl). unfold audio_relevant in Hline.
  repeat case_decide; try done; exfalso; apply Hline; auto.
Qed.

(** X21: the network monitor reacts to nothing but a device that connected
    or disconnected: a chunk whose complete lines are all other lines, those
    that report a connection in progress or a connectivity level among them,
    is cut into lines, its partial line is kept, and nothing else happens: no
    callback is called, no query is sent and the remembered device stays. *)
Theorem network_ignores_other_lines options pid buffer text s :
  NetworkMonitor.stopped s = false →
  NetworkMonitor.loops s !! pid = Some (mkReadLoop buffer Waiting) →
  Forall (λ line, ∀ ev, parseMonitorLine line = Some ev →
                        ¬ network_relevant ev) (feed buffer text).1 →
  NetworkMonitor.step options s (NetworkMonitor.Chunk pid text)
  = (NetworkMonitor.set_loop pid (mkReadLoop (feed buffer text).2 Waiting) s,
     []).
Proof.
  intros Hs Hl Hlines. simpl. rewrite Hl, Hs.
  change (removelast (split_lines (buffer ++ text)))
    with (feed buffer text).1.
  rewrite network_handle_other by done.
  unfold NetworkMonitor.set_at, NetworkMonitor.set_loop. simpl.
  by rewrite alter_insert_same.
Qed.

Lemma network_ignores_other_lines_witness :
  let s := (NetworkMonitor.step NetworkMonitor.all_callbacks
              NetworkMonitor.create.1
              (NetworkMonitor.InitQueryDone (NetworkMonitor.Resolved None)
                 true)).1 in
  let text := js "Connectivity is now 'full'" ++ [10]
              ++ js "wlan0: using connection 'Chili'" ++ [10]
              ++ js "wlan0: conn" in
  NetworkMonitor.step NetworkMonitor.all_callbacks s
    (NetworkMonitor.Chunk 0 text)
  = (NetworkMonitor.set_loop 0 (mkReadLoop (js "wlan0: conn") Waiting) s, []).
Proof.
  intros s text.
  apply (network_ignores_other_lines NetworkMonitor.all_callbacks 0 [] text s);
    [by vm_compute..|].
  repeat constructor; intros ev H; vm_compute in H; injection H as <-;
    by intros [E|E].
Defined.

(** X22: the audio monitor reacts to nothing but a change on a sink or on
    the server: a chunk whose complete lines are all other lines (other
    actions, other objects, or no event at all) is cut into lines, its
    partial line is kept, and nothing else happens: no callback is called and
    no query is sent. *)
Theorem audio_ignores_other_lines options pid buffer text s :
  AudioMonitor.stopped s = false →
  AudioMonitor.loops s !! pid = Some (mkReadLoop buffer Waiting) →
  Forall (λ line, ∀ ev, parseSubscribeLine line = Some ev →
                        ¬ audio_relevant ev) (feed buffer text).1 →
  AudioMonitor.step options s (AudioMonitor.Chunk pid text)
  = (AudioMonitor.set_loop pid (mkReadLoop (feed buffer text).2 Waiting) s,
     []).
Proof.
  intros Hs Hl Hlines. simpl. rewrite Hl, Hs.
  change (removelast (split_lines (buffer ++ text)))
    with (feed buffer text).1.
  rewrite audio_handle_other by done.
  unfold AudioMonitor.set_at, AudioMonitor.set_loop. simpl.
  by rewrite alter_insert_same.
Qed.

Lemma audio_ignores_other_lines_witness :
  let options := AudioMonitor.mkOptions true true true in
  let s := (AudioMonitor.step options AudioMonitor.create.1
              (AudioMonitor.InitQueryDone
                 (AudioMonitor.Rejected (js "no server")) true)).1 in
  let text := js "Event 'new' on sink-input #100" ++ [10]
              ++ js "Event 'change' on source #57" ++ [10]
              ++ js "Event 'remove' on client #123" ++ [10] in
  AudioMonitor.step options s (AudioMonitor.Chunk 0 text)
  = (AudioMonitor.set_loop 0 (mkReadLoop [] Waiting) s, []).
Proof.
  intros options s text.
  apply (audio_ignores_other_lines options 0 [] text s); [by vm_compute..|].
  repeat constructor; intros ev H; vm_compute in H; injection H as <-;
    intros [E1 [E2|E2]]; by vm_compute in E1, E2.
Defined.

(* ===================================================================== *)
(** * The fast path of the wifi signal: where the number comes from *)
(* ===================================================================== *)

(** What [search] returns is the match array of a match at a position of
    the text. *)
Lemma search_sound_at ml pat prev s mt :
  search ml pat prev s = Some mt →
  ∃ pre prev' s' r,
    s = pre ++ s' ∧ run ml pat [] [] prev' s' = Some r
    ∧ mt = match_array s' r.
Proof.
  revert prev. induction s as [|c s IH]; intros prev; simpl.
  - destruct (run ml pat [] [] prev []) as [r|] eqn:Hr; [|done].
    intros [= <-]. by exists [], prev, [], r.
  - destruct (run ml pat [] [] prev (c :: s)) as [r|] eqn:Hr.
    + intros [= <-]. by exists [], prev, (c :: s), r.
    + intros H. apply IH in H as (pre & prev' & s' & r & -> & H1 & H2).
      by exists (c :: pre), prev', s', r.
Qed.

(** The pattern of [/proc/net/wireless] matches a row of the device. *)
Lemma wireless_regex_row device regex text mt :
  wireless_regex device = Some regex →
  exec true regex text = Some mt →
  ∃ pre sp ws1 d1 ws2 q post,
    text = pre ++ sp ++ device ++ js ":" ++ ws1 ++ d1 ++ ws2 ++ q ++ js "."
           ++ post
    ∧ forallb space sp = true ∧ run_of space ws1 ∧ run_of digit d1
    ∧ run_of space ws2 ∧ run_of digit q
    ∧ mt !! 1%nat = Some q.
Proof.
  unfold wireless_regex, device_pattern.
  destruct (forallb _ device); [|done]. intros [= <-] H.
  apply search_sound_at in H as (pre & prev & s & r & -> & H & ->).
  cbn [app run] in H. destruct (at_bol true prev); [|done].
  apply star_loop_sound in H as (sp & t1 & p1 & -> & Hsp & H).
  apply run_lits_sound in H as (t2 & p2 & -> & H).
  change (run true (Lit ?c :: ?p)) with (run true (lits [c] ++ p)) in H.
  apply run_lits_sound in H as (t3 & p3 & -> & H).
  cbn [app run] in H.
  apply plus_loop_sound in H as (ws1 & t4 & p4 & -> & Hws1 & H).
  apply plus_loop_sound in H as (d1 & t5 & p5 & -> & Hd1 & H).
  apply plus_loop_sound in H as (ws2 & t6 & p6 & -> & Hws2 & H).
  apply (run_group_sound true digit (lits (js "."))) in H
    as (q & t7 & p7 & -> & Hq & H).
  rewrite <- (app_nil_r (lits (js "."))) in H.
  apply run_lits_sound in H as (post & p8 & -> & H).
  simpl in H. injection H as <-.
  exists pre, sp, ws1, d1, ws2, q, post. repeat split; try done; apply Hq
    || apply Hws1 || apply Hd1 || apply Hws2.
Qed.



(* ===================================================================== *)
(** * The one-shot queries of network.ts *)
(* ===================================================================== *)

Lemma elem_of_omap_lines {A} (f : jsstring → option A) (lines : list jsstring)
    (x : A) :
  x ∈ omap f lines → ∃ line, line ∈ lines ∧ f line = Some x.
Proof. intros H. by apply list_elem_of_omap in H. Qed.

(** X24: every device [listEthernetDevices] lists has a name and comes from
    a row of the output whose second field is ["ethernet"]; a speed is given
    only for a device that is connected, and only a speed greater than zero
    (a speed file that holds -1, 0 or no number gives none); and the call
    fails exactly when the command exits with another code than 0. *)
Theorem listEthernetDevices_lists proc speed_file :
  (∀ devices dev,
     listEthernetDevices proc speed_file = inr devices → dev ∈ devices →
     ed_device dev ≠ []
     ∧ (∃ line rest,
          line ∈ split_char 10 (trim (stdout proc))
          ∧ split_char 58 line = ed_device dev :: js "ethernet" :: rest)
     ∧ (∀ v, ed_speed dev = Some v →
             ed_state dev = eth_connected ∧ (0 <? v)%float = true))
  ∧ ((∃ e, listEthernetDevices proc speed_file = inl e) ↔ exited proc ≠ 0%Z).
Proof.
  unfold listEthernetDevices. split.
  - intros devices dev. destruct (exited proc =? 0)%Z; [|done].
    intros [= <-] Hin. apply list_elem_of_fmap in Hin as (d0 & -> & Hin).
    apply elem_of_omap_lines in Hin as (line & Hline & Hd0).
    unfold ethernetLine in Hd0. destruct (truthy line); simpl in Hd0; [|done].
    destruct (split_char 58 line) as [|device [|type rest]] eqn:Hparts;
      simpl in Hd0; try done.
    + by destruct device.
    + destruct device as [|c device]; [done|].
      case_bool_decide as Htype; [|done]. injection Htype as ->.
      injection Hd0 as <-. simpl.
      split; [|split].
      * by repeat case_bool_decide.
      * exists line, rest. split; [done|]. by repeat case_bool_decide.
      * intros v. repeat case_bool_decide; simpl; try done.
        unfold getEthernetSpeed. destruct (speed_file _) as [text|]; [|done].
        destruct (0 <? parseInt10 (trim text))%float eqn:E; [|done].
        by intros [= <-].
  - destruct (Z.eqb_spec (exited proc) 0) as [E|E].
    + split; [by intros [e He]|done].
    + split; [done|]. intros _. by eexists.
Qed.

Lemma listEthernetDevices_lists_witness :
  let proc := mkCompleted
                (js "enp3s0:ethernet:connected:Wired connection 1" ++ [10]
                 ++ js "wlan0:wifi:connected:Chili" ++ [10]
                 ++ js "eth1:ethernet:unavailable:" ++ [10]
                 ++ js "lo:loopback:unmanaged:" ++ [10]) 0 [] in
  let speed_file := λ device,
    if bool_decide (device = js "enp3s0") then Some (js "1000" ++ [10])
    else Some (js "-1" ++ [10]) in
  listEthernetDevices proc speed_file
  = inr [mkEthernetDevice (js "enp3s0") eth_connected
           (Some (js "Wired connection 1")) (Some 1000%float);
         mkEthernetDevice (js "eth1") eth_unavailable (Some []) None]
  ∧ ed_device (mkEthernetDevice (js "eth1") eth_unavailable (Some []) None)
    ≠ [].
Proof.
  intros proc speed_file.
  assert (listEthernetDevices proc speed_file
          = inr [mkEthernetDevice (js "enp3s0") eth_connected
                   (Some (js "Wired connection 1")) (Some 1000%float);
                 mkEthernetDevice (js "eth1") eth_unavailable (Some []) None])
    as E by (by vm_compute).
  split; [done|].
  apply (proj1 (listEthernetDevices_lists proc speed_file) _ _ E).
  right. left.
Defined.

(** a status made by [parseWifiLine] is a wifi status with a name and a
    device, made from a line that ends in [":yes"] *)
Lemma parseWifiLine_Some line st :
  parseWifiLine line = Some st →
  NetworkMonitor.ns_type st = NetworkMonitor.wifi
  ∧ NetworkMonitor.ns_name st ≠ [] ∧ NetworkMonitor.ns_device st ≠ []
  ∧ ends_with line (js ":yes") = true.
Proof.
  unfold parseWifiLine. destruct (ends_with line (js ":yes")); [|done].
  simpl. destruct (length _ <? 8)%nat; [done|].
  destruct (split_char 58 line !! 0%nat) as [[|c ssid]|]; try done.
  destruct (split_char 58 line !! 6%nat) as [[|d device]|]; try done.
  by intros [= <-].
Qed.

Lemma connectionLine_Some line conn :
  connectionLine line = Some conn →
  conn_name conn ≠ [] ∧ conn_device conn ≠ []
  ∧ ∃ rest, split_char 58 line
            = conn_name conn :: conn_type conn :: conn_device conn :: rest.
Proof.
  unfold connectionLine. destruct (truthy line); [|done]. simpl.
  destruct (split_char 58 line) as [|n [|t [|d rest]]]; simpl; try done.
  - by destruct n.
  - by destruct n, t.
  - destruct n, t, d; try done. intros [= <-]. simpl. eauto.
Qed.

Lemma first_connection_Some connections st :
  first_connection connections = Some st →
  ∃ conn, conn ∈ connections
          ∧ conn_type conn ≠ js "loopback"
          ∧ NetworkMonitor.ns_name st = conn_name conn
          ∧ NetworkMonitor.ns_device st = conn_device conn
          ∧ NetworkMonitor.ns_signal st = None
          ∧ (NetworkMonitor.ns_type st = NetworkMonitor.wifi
             ↔ conn_type conn = js "802-11-wireless")
          ∧ (NetworkMonitor.ns_type st = NetworkMonitor.ethernet
             ↔ conn_type conn = js "802-3-ethernet").
Proof.
  induction connections as [|conn rest IH]; simpl; [done|].
  case_bool_decide as Hloop.
  - intros H. destruct (IH H) as (c & Hin & Hc). exists c. split; [|done].
    by right.
  - intros [= <-]. exists conn. split; [by left|]. simpl.
    repeat split; try done; repeat case_bool_decide; try done;
      intros E; rewrite E in *; by vm_compute in *.
Qed.

(** X25: a status [getActiveConnection] returns always has a name and a
    device.  It is either a wifi status made from a row of the wifi query
    that ends in [":yes"], or it is made from a row of the connection query
    that has a name, a type and a device and whose type is not
    ["loopback"]: the loopback is never returned, and such a status has
    no signal and has the type wifi or ethernet exactly for the types
    ["802-11-wireless"] and ["802-3-ethernet"]. *)
Theorem getActiveConnection_status wifiProc connProc st :
  getActiveConnection wifiProc connProc = inr (Some st) →
  NetworkMonitor.ns_name st ≠ [] ∧ NetworkMonitor.ns_device st ≠ []
  ∧ ((exited wifiProc = 0%Z
      ∧ NetworkMonitor.ns_type st = NetworkMonitor.wifi
      ∧ ∃ line, line ∈ split_char 10 (trim (stdout wifiProc))
                ∧ ends_with line (js ":yes") = true
                ∧ parseWifiLine line = Some st)
     ∨ (exited connProc = 0%Z
        ∧ NetworkMonitor.ns_signal st = None
        ∧ ∃ line rest name type device,
            line ∈ split_char 10 (trim (stdout connProc))
            ∧ split_char 58 line = name :: type :: device :: rest
            ∧ type ≠ js "loopback"
            ∧ NetworkMonitor.ns_name st = name
            ∧ NetworkMonitor.ns_device st = device
            ∧ (NetworkMonitor.ns_type st = NetworkMonitor.wifi
               ↔ type = js "802-11-wireless")
            ∧ (NetworkMonitor.ns_type st = NetworkMonitor.ethernet
               ↔ type = js "802-3-ethernet"))).
Proof.
  unfold getActiveConnection.
  destruct ((exited wifiProc =? 0)%Z && truthy (trim (stdout wifiProc)))
    eqn:Hwifi.
  - destruct (parseWifiOutput (stdout wifiProc)) as [st'|] eqn:Hp.
    + intros [= <-]. unfold parseWifiOutput in Hp.
      destruct (omap parseWifiLine _) as [|x l] eqn:Ho; [done|].
      injection Hp as ->.
      assert (st' ∈ omap parseWifiLine
                      (split_char 10 (trim (stdout wifiProc)))) as Hin
        by (rewrite Ho; by left).
      apply elem_of_omap_lines in Hin as (line & Hline & Hst).
      destruct (parseWifiLine_Some _ _ Hst) as (H1 & H2 & H3 & H4).
      apply andb_true_iff in Hwifi as [He _]. apply Z.eqb_eq in He.
      split; [done|]. split; [done|]. left. eauto 8.
    + destruct (Z.eqb_spec (exited connProc) 0) as [E|E]; [|done].
      intros [= H]. apply first_connection_Some in H
        as (conn & Hin & Hl & Hn & Hd & Hs & Hw & He).
      apply elem_of_omap_lines in Hin as (line & Hline & Hc).
      apply connectionLine_Some in Hc as (Hn' & Hd' & rest & Hparts).
      rewrite Hn, Hd. split; [done|]. split; [done|]. right.
      split; [done|]. split; [done|].
      exists line, rest, (conn_name conn), (conn_type conn), (conn_device conn).
      done.
  - destruct (Z.eqb_spec (exited connProc) 0) as [E|E]; [|done].
    intros [= H]. apply first_connection_Some in H
      as (conn & Hin & Hl & Hn & Hd & Hs & Hw & He).
    apply elem_of_omap_lines in Hin as (line & Hline & Hc).
    apply connectionLine_Some in Hc as (Hn' & Hd' & rest & Hparts).
    rewrite Hn, Hd. split; [done|]. split; [done|]. right.
    split; [done|]. split; [done|].
    exists line, rest, (conn_name conn), (conn_type conn), (conn_device conn).
    done.
Qed.

Lemma getActiveConnection_status_witness :
  let wifiProc := mkCompleted [] 8 (js "Error: NetworkManager is not running.") in
  let connProc := mkCompleted
                    (js "lo:loopback:lo" ++ [10]
                     ++ js "Wired connection 1:802-3-ethernet:enp3s0" ++ [10])
                    0 [] in
  let st := NetworkMonitor.mkNetworkStatus (js "Wired connection 1")
              NetworkMonitor.ethernet (js "enp3s0") None None None None None in
  getActiveConnection wifiProc connProc = inr (Some st)
  ∧ NetworkMonitor.ns_name st ≠ [].
Proof.
  intros wifiProc connProc st.
  assert (getActiveConnection wifiProc connProc = inr (Some st)) as E
    by (by vm_compute).
  split; [done|].
  apply (getActiveConnection_status wifiProc connProc st E).
Defined.

(** X26: [getActiveConnection] fails only through the connection query: a
    wifi query that fails, or that finds no active row, is passed over in
    silence, and the call fails exactly when it has to fall back on the
    connection query and that command exits with another code than 0; the
    error then holds that code and what the command wrote to its error
    stream. *)
Theorem getActiveConnection_failure wifiProc connProc :
  (exited connProc = 0%Z →
   ∃ r, getActiveConnection wifiProc connProc = inr r)
  ∧ (∀ e, getActiveConnection wifiProc connProc = inl e →
          exited connProc ≠ 0%Z ∧ e = nmcli_failed connProc)
  ∧ (exited wifiProc ≠ 0%Z → exited connProc ≠ 0%Z →
     getActiveConnection wifiProc connProc = inl (nmcli_failed connProc)).
Proof.
  unfold getActiveConnection. split; [|split].
  - intros ->. simpl. destruct (_ && _); [|by eexists].
    destruct (parseWifiOutput _); by eexists.
  - intros e. destruct (Z.eqb_spec (exited connProc) 0) as [E|E].
    + destruct (_ && _); [|done]. by destruct (parseWifiOutput _).
    + destruct (_ && _); [destruct (parseWifiOutput _); [done|]|];
        by intros [= <-].
  - intros Hw Hc.
    destruct (Z.eqb_spec (exited wifiProc) 0) as [E|E]; [done|]. simpl.
    by destruct (Z.eqb_spec (exited connProc) 0).
Qed.

Lemma getActiveConnection_failure_witness :
  let wifiProc := mkCompleted [] 8 (js "nmcli is not running") in
  let connProc := mkCompleted [] 8 (js "nmcli is not running") in
  getActiveConnection wifiProc connProc
  = inl (js "nmcli command failed with exit code 8: nmcli is not running").
Proof.
  intros wifiProc connProc.
  apply (proj2 (proj2 (getActiveConnection_failure wifiProc connProc)));
    by vm_compute.
Defined.

(** ** Escaped colons in the list of wifi networks *)

Lemma escape_colons_cons c b :
  escape_colons (c :: b)
  = (if c =? 58 then [92; 58] else [c]) ++ escape_colons b.
Proof. done. Qed.

(** A field with its colons escaped is not cut, and the colon after it is
    where the text is cut. *)
Lemma split_unescaped_field b prev rest :
  92 ∉ b → prev ≠ Some 92 →
  split_unescaped prev (escape_colons b ++ 58 :: rest)
  = escape_colons b :: split_unescaped (Some 58) rest.
Proof.
  revert prev. induction b as [|c b IH]; intros prev Hb Hprev.
  - simpl. by rewrite bool_decide_eq_false_2.
  - apply not_elem_of_cons in Hb as [Hc Hb].
    rewrite escape_colons_cons. destruct (N.eqb_spec c 58) as [->|Hne].
    + cbn [app split_unescaped]. simpl.
      by rewrite IH by done.
    + cbn [app split_unescaped].
      rewrite (proj2 (N.eqb_neq c 58) Hne). simpl.
      rewrite IH; [done|done|]. intros [= E]. by apply Hc.
Qed.

Lemma split_unescaped_last b prev :
  92 ∉ b → prev ≠ Some 92 →
  split_unescaped prev (escape_colons b) = [escape_colons b].
Proof.
  revert prev. induction b as [|c b IH]; intros prev Hb Hprev; [done|].
  apply not_elem_of_cons in Hb as [Hc Hb].
  rewrite escape_colons_cons. destruct (N.eqb_spec c 58) as [->|Hne].
  - cbn [app split_unescaped]. simpl.
    by rewrite IH by done.
  - cbn [app split_unescaped].
    rewrite (proj2 (N.eqb_neq c 58) Hne). simpl.
    rewrite IH; [done|done|]. intros [= E]. by apply Hc.
Qed.

(** Taking the backslashes off gives back the text the colons of which were
    escaped. *)
Lemma unescape_escape b : 92 ∉ b → unescape_colons (escape_colons b) = b.
Proof.
  induction b as [|c b IH]; intros Hb; [done|].
  apply not_elem_of_cons in Hb as [Hc Hb].
  rewrite escape_colons_cons. destruct (N.eqb_spec c 58) as [->|Hne].
  - simpl. by rewrite IH.
  - cbn [app]. specialize (IH Hb).
    destruct (escape_colons b) as [|d l] eqn:E.
    + simpl in IH. by subst b.
    + change (unescape_colons (c :: d :: l))
        with (if (c =? 92) && (d =? 58) then 58 :: unescape_colons l
              else c :: unescape_colons (d :: l)).
      rewrite (proj2 (N.eqb_neq c 92) (not_eq_sym Hc)). simpl andb.
      by rewrite IH.
Qed.

(** a field without colon or backslash is its own escaped form *)
Lemma escape_colons_plain f : 58 ∉ f → escape_colons f = f.
Proof.
  induction f as [|c f IH]; intros Hf; [done|].
  apply not_elem_of_cons in Hf as [Hc Hf].
  rewrite escape_colons_cons, (proj2 (N.eqb_neq c 58) (not_eq_sym Hc)). simpl.
  by rewrite IH.
Qed.

Lemma escape_colons_nonempty b : b ≠ [] → escape_colons b ≠ [].
Proof.
  destruct b as [|c b]; [done|]. intros _. rewrite escape_colons_cons.
  by destruct (c =? 58).
Qed.

(** X27: a row of the wifi list in which the colons of the BSSID are escaped
    is read back field by field: the network has the SSID of the row, the
    BSSID without the backslashes, the signal and the channel as the numbers
    written (0 and none when the field is empty), the other fields as they
    stand, and it is active exactly when the last field is ["yes"]. *)
Theorem parseWifiListLine_reads_back
    ssid bssid signal rate freq chan security device active :
  Forall (λ f, (58 ∉ f) ∧ (92 ∉ f))
    [ssid; signal; rate; freq; chan; security; device; active] →
  92 ∉ bssid → ssid ≠ [] → bssid ≠ [] →
  parseWifiListLine
    (ssid ++ js ":" ++ escape_colons bssid ++ js ":" ++ signal ++ js ":"
     ++ rate ++ js ":" ++ freq ++ js ":" ++ chan ++ js ":" ++ security
     ++ js ":" ++ device ++ js ":" ++ active)
  = Some (mkWifiNetwork ssid bssid
            (if truthy signal then parseInt10 signal else 0%float)
            (Some rate) (Some freq)
            (if truthy chan then Some (parseInt10 chan) else None)
            (Some security)
            (bool_decide (active = js "yes"))).
Proof.
  intros Hf Hb Hs Hbs.
  repeat (apply Forall_cons in Hf as [[? ?] Hf]).
  unfold parseWifiListLine.
  assert (∀ x y : jsstring, x ++ js ":" ++ y = x ++ 58 :: y) as Hsep by done.
  rewrite !Hsep.
  rewrite <- (escape_colons_plain ssid), <- (escape_colons_plain signal),
    <- (escape_colons_plain rate), <- (escape_colons_plain freq),
    <- (escape_colons_plain chan), <- (escape_colons_plain security),
    <- (escape_colons_plain device), <- (escape_colons_plain active) by done.
  rewrite !split_unescaped_field, split_unescaped_last by done.
  rewrite !escape_colons_plain by done.
  replace (truthy (ssid ++ _)) with true by (by destruct ssid).
  simpl. rewrite unescape_escape by done.
  destruct ssid as [|c1 ssid]; [done|]. destruct bssid as [|c2 bssid]; [done|].
  destruct (escape_colons signal), (escape_colons chan); simpl;
    do 2 f_equal; apply bool_decide_ext; split; congruence.
Qed.

Lemma parseWifiListLine_reads_back_witness :
  parseWifiListLine
    (js "Chili" ++ js ":" ++ escape_colons (js "34:78:39:45:F9:B0") ++ js ":"
     ++ js "82" ++ js ":" ++ js "130 Mbit/s" ++ js ":" ++ js "2427 MHz"
     ++ js ":" ++ js "4" ++ js ":" ++ js "WPA2" ++ js ":" ++ js "wlan0"
     ++ js ":" ++ js "yes")
  = Some (mkWifiNetwork (js "Chili") (js "34:78:39:45:F9:B0") 82%float
            (Some (js "130 Mbit/s")) (Some (js "2427 MHz")) (Some 4%float)
            (Some (js "WPA2")) true).
Proof.
  apply (parseWifiListLine_reads_back (js "Chili") (js "34:78:39:45:F9:B0")
           (js "82") (js "130 Mbit/s") (js "2427 MHz") (js "4") (js "WPA2")
           (js "wlan0") (js "yes")).
  - repeat constructor; apply not_in_text; by vm_compute.
  - apply not_in_text; by vm_compute.
  - done.
  - done.
Defined.

(* ===================================================================== *)
(** * The debounced callback *)
(* ===================================================================== *)

Module DebounceFacts.
Import Debounce.
Section DebounceFacts.
Context {Args : Type}.
Implicit Types (s : State Args) (evs fires : list (Event Args)).

Lemma run_app s evs evs' :
  run s (evs ++ evs')
  = let '(s1, out1) := run s evs in
    let '(s2, out2) := run s1 evs' in (s2, out1 ++ out2).
Proof.
  revert s. induction evs as [|ev evs IH]; intros s; simpl.
  - by destruct (run s evs').
  - destruct (step s ev) as [s1 o1]. rewrite IH.
    destruct (run s1 evs) as [s2 o2], (run s2 evs') as [s3 o3].
    by rewrite app_assoc.
Qed.

Lemma latest_only_timers s :
  latest_only s →
  match timeoutId s with
  | Some t => delete t (timers s) = ∅
  | None => timers s = ∅
  end.
Proof.
  intros Hs. destruct (timeoutId s) as [t|] eqn:E; apply map_eq; intros i;
    rewrite lookup_empty.
  - destruct (decide (i = t)) as [->|Hne]; [by rewrite lookup_delete_eq|].
    rewrite lookup_delete_ne by done.
    destruct (timers s !! i) as [a|] eqn:Ei; [|done].
    apply Hs in Ei. congruence.
  - destruct (timers s !! i) as [a|] eqn:Ei; [|done].
    apply Hs in Ei. congruence.
Qed.

Lemma debounced_timers s a :
  latest_only s →
  timeoutId (debounced a s) = Some (next_timer s)
  ∧ timers (debounced a s) = {[ next_timer s := a ]}.
Proof.
  intros Hs. apply latest_only_timers in Hs.
  unfold debounced, clear, clearTimeout.
  destruct (timeoutId s) as [t|]; simpl; rewrite Hs; done.
Qed.

Lemma latest_only_step s ev :
  latest_only s → latest_only (step s ev).1.
Proof.
  intros Hs. destruct ev as [a| |t]; simpl.
  - destruct (debounced_timers s a Hs) as [Hid Ht].
    intros t b. rewrite Hid, Ht. intros [-> _]%lookup_singleton_Some. done.
  - unfold clear, clearTimeout. destruct (timeoutId s) as [t|] eqn:E; [|done].
    intros t' b. simpl. intros [_ Hl]%lookup_delete_Some. rewrite <- E; eauto.
  - destruct (timers s !! t) as [a|] eqn:E; [|done].
    intros t' b. simpl. intros [_ Hl]%lookup_delete_Some. eauto.
Qed.

Lemma latest_only_run s evs :
  latest_only s → latest_only (run s evs).1.
Proof.
  revert s. induction evs as [|ev evs IH]; intros s Hs; [done|]. simpl.
  pose proof (latest_only_step s ev Hs) as H1.
  destruct (step s ev) as [s1 o1]. specialize (IH s1 H1).
  by destruct (run s1 evs).
Qed.

Lemma latest_only_init : latest_only (init (Args := Args)).
Proof. intros t a. unfold init. simpl. by rewrite lookup_empty. Qed.

Lemma fires_nothing s fires :
  timers s = ∅ → only_fires fires → run s fires = (s, []).
Proof.
  intros Hs Hf. induction Hf as [|ev fires Hev _ IH]; [done|].
  destruct ev as [| |t]; try done. simpl.
  rewrite Hs, lookup_empty, IH. done.
Qed.

Lemma fires_the_latest s t a fires :
  timers s = {[ t := a ]} → only_fires fires →
  (run s fires).2 = if runs_timer t fires then [a] else [].
Proof.
  intros Hs Hf. induction Hf as [|ev fires Hev Hf IH]; [done|].
  destruct ev as [| |t']; try done. simpl. rewrite Hs.
  destruct (Nat.eqb_spec t' t) as [->|Hne].
  - rewrite lookup_singleton_eq. rewrite fires_nothing; [done| |done].
    simpl. by rewrite delete_singleton_eq.
  - rewrite lookup_singleton_ne by done. simpl.
    destruct (run s fires) as [s2 o2]. done.
Qed.

End DebounceFacts.
End DebounceFacts.

(** X28: Whatever happened to a debounced function before (calls, [clear],
    timers running), after a call with the arguments [a] exactly one timer is
    pending, and while no further call is made the callback is called at most
    once: with [a], when the host runs that timer, and not at all when it
    runs others. *)
Theorem debounce_trailing_edge {Args : Type}
    (evs fires : list (Debounce.Event Args)) (a : Args) :
  Debounce.only_fires fires →
  let s := (Debounce.run Debounce.init (evs ++ [Debounce.Call a])).1 in
  ∃ t, Debounce.timeoutId s = Some t
     ∧ Debounce.timers s = {[ t := a ]}
     ∧ (Debounce.run s fires).2
       = if Debounce.runs_timer t fires then [a] else [].
Proof.
  intros Hf s. subst s. rewrite DebounceFacts.run_app.
  pose proof (DebounceFacts.latest_only_run Debounce.init evs
                DebounceFacts.latest_only_init) as Hs.
  destruct (Debounce.run Debounce.init evs) as [s1 o1]. simpl in *.
  destruct (DebounceFacts.debounced_timers s1 a Hs) as [Hid Ht].
  exists (Debounce.next_timer s1). split; [done|]. split; [done|].
  by apply DebounceFacts.fires_the_latest.
Qed.

Lemma debounce_trailing_edge_witness :
  Debounce.only_fires (Args := Z) [Debounce.Fire 0%nat; Debounce.Fire 2%nat]
  ∧ ∃ t, Debounce.timers
           (Debounce.run Debounce.init
              ([Debounce.Call 1%Z; Debounce.Call 2%Z] ++ [Debounce.Call 3%Z])).1
         = {[ t := 3%Z ]}
       ∧ (Debounce.run
            (Debounce.run Debounce.init
               ([Debounce.Call 1%Z; Debounce.Call 2%Z] ++ [Debounce.Call 3%Z])).1
            [Debounce.Fire 0%nat; Debounce.Fire 2%nat]).2
         = if Debounce.runs_timer (Args := Z) t
                [Debounce.Fire 0%nat; Debounce.Fire 2%nat]
           then [3%Z] else [].
Proof.
  assert (Hf : Debounce.only_fires (Args := Z)
                 [Debounce.Fire 0%nat; Debounce.Fire 2%nat])
    by (repeat constructor).
  split; [exact Hf|].
  destruct (debounce_trailing_edge
              [Debounce.Call 1%Z; Debounce.Call 2%Z]
              [Debounce.Fire 0%nat; Debounce.Fire 2%nat] 3%Z Hf)
    as (t & _ & Ht & Hout).
  exists t. exact (conj Ht Hout).
Defined.

(** X29: Whatever happened before, after [clear] no timer of the debounced
    function is pending: until the next call the host running timers calls
    the callback not once. *)
Theorem debounce_clear_cancels {Args : Type}
    (evs fires : list (Debounce.Event Args)) :
  Debounce.only_fires fires →
  let s := (Debounce.run Debounce.init (evs ++ [Debounce.Clear])).1 in
  Debounce.timers s = ∅ ∧ (Debounce.run s fires).2 = [].
Proof.
  intros Hf s. subst s. rewrite DebounceFacts.run_app.
  pose proof (DebounceFacts.latest_only_run Debounce.init evs
                DebounceFacts.latest_only_init) as Hs.
  destruct (Debounce.run Debounce.init evs) as [s1 o1]. simpl in *.
  apply DebounceFacts.latest_only_timers in Hs.
  assert (Debounce.timers (Debounce.clear s1) = ∅) as He.
  { unfold Debounce.clear, Debounce.clearTimeout.
    by destruct (Debounce.timeoutId s1). }
  split; [done|]. by rewrite DebounceFacts.fires_nothing.
Qed.

Lemma debounce_clear_cancels_witness :
  Debounce.only_fires (Args := Z) [Debounce.Fire 0%nat; Debounce.Fire 1%nat]
  ∧ (Debounce.run
       (Debounce.run Debounce.init
          ([Debounce.Call 1%Z; Debounce.Call 2%Z] ++ [Debounce.Clear])).1
       [Debounce.Fire 0%nat; Debounce.Fire 1%nat]).2 = [].
Proof.
  assert (Hf : Debounce.only_fires (Args := Z)
                 [Debounce.Fire 0%nat; Debounce.Fire 1%nat])
    by (repeat constructor).
  split; [exact Hf|].
  exact (proj2 (debounce_clear_cancels
                  [Debounce.Call 1%Z; Debounce.Call 2%Z]
                  [Debounce.Fire 0%nat; Debounce.Fire 1%nat] Hf)).
Defined.

(* ===================================================================== *)
(** * Launching an application *)
(* ===================================================================== *)


